(** * SunoNodeServer: session lifecycle, credit failover and job polling

    A shallow embedding of [src/lib/SunoApi.js] (the guarded JavaScript
    client), of the failover helper [change_Account] of [src/lib/SunoApi.ts]
    and of the [sleep] helper, followed by the properties of the
    specification that concern them.

    The upstream services (jsdelivr, Clerk, the Suno studio API), the
    credential sheet, [Math.random] and the latency of every call are not
    part of the program: they are an [environment] of oracles, indexed by the
    number of calls made so far, so that two consecutive queries may be
    answered differently.  [Date.now()] is a logical clock in milliseconds.
    An asynchronous method is a state transformer on a [world]; a thrown
    exception is the result [Throw]; a loop that has not finished when its
    fuel runs out yields [Diverge]. *)

From Stdlib Require Import ZArith NArith String Ascii List Bool Lia.
From stdpp Require Import base list.
Import ListNotations.

Local Open Scope string_scope.
Local Open Scope Z_scope.

(** ** JavaScript values *)

(** [!x] on a string that may be [undefined]: the empty string and
    [undefined] are falsy. *)
Definition truthy (x : option string) : bool :=
  match x with
  | Some s => negb (s =? "")%string
  | None => false
  end.

(** [x < n] and [x >= n] on a number that may be [undefined]: every
    comparison with [undefined] is false. *)
Definition js_lt (x : option Z) (n : Z) : bool :=
  match x with
  | Some z => z <? n
  | None => false
  end.

Definition js_ge (x : option Z) (n : Z) : bool :=
  match x with
  | Some z => n <=? z
  | None => false
  end.

(** ** Data *)

(** A row of the credential sheet. *)
Record license := { account : string; licenseKey : string }.

(** The body of [/api/billing/info/]. *)
Record billing := {
  total_credits_left : option Z;
  period : option string;
  monthly_limit : option Z;
  monthly_usage : option Z
}.

(** The value of [get_credits]. *)
Record credits := {
  credits_left : option Z;
  credits_period : option string;
  credits_monthly_limit : option Z;
  credits_monthly_usage : option Z
}.

(** A clip as the upstream reports it (the fields the client reads). *)
Record clip := {
  clip_id : string;
  clip_title : string;
  clip_audio_url : string;
  clip_status : string;
  clip_prompt : option string;          (* metadata.prompt *)
  clip_tags : option string;            (* metadata.tags *)
  clip_error_message : option string    (* metadata.error_message *)
}.

(** The normalised shape returned to the caller. *)
Record AudioInfo := {
  id : string;
  title : string;
  lyric : option string;
  audio_url : string;
  status : string;
  prompt : option string;
  tags : option string;
  error_message : option string
}.

(** The body of [/api/generate/lyrics/<id>]. *)
Record lyrics := { lyrics_status : option string; lyrics_text : string }.

(** The body posted to [/api/generate/v2/]. *)
Record payload := {
  make_instrumental : bool;
  mv : string;
  payload_prompt : string;
  payload_tags : option string;
  payload_title : option string;
  payload_negative_tags : option string;
  gpt_description_prompt : option string;
  continue_clip_id : option string;
  continue_at : option string
}.

(** The own properties that [setupBindings] installs on an instance. *)
Module Name.

Inductive t := generate | concatenate | custom_generate | generateLyrics | extendAudio.

Definition eqb (a b : t) : bool :=
  match a, b with
  | generate, generate | concatenate, concatenate
  | custom_generate, custom_generate | generateLyrics, generateLyrics
  | extendAudio, extendAudio => true
  | _, _ => false
  end.

End Name.

(** A method together with the arguments of one call. *)
Inductive call :=
| Generate (prompt : string) (make_instrumental : bool) (model : option string) (wait_audio : bool)
| Concatenate (clip_id : string)
| CustomGenerate (prompt : string) (tags title : option string) (make_instrumental : bool)
    (model : option string) (wait_audio : bool) (negative_tags : option string)
| GenerateLyrics (prompt : string)
| ExtendAudio (audioId prompt continueAt tags title : string) (model : option string).

(** [method.name] *)
Definition method_name (c : call) : Name.t :=
  match c with
  | Generate _ _ _ _ => Name.generate
  | Concatenate _ => Name.concatenate
  | CustomGenerate _ _ _ _ _ _ _ => Name.custom_generate
  | GenerateLyrics _ => Name.generateLyrics
  | ExtendAudio _ _ _ _ _ _ => Name.extendAudio
  end.

(** What a method resolves to. *)
Inductive value :=
| VAudios (l : list AudioInfo)
| VClips (l : list clip)        (* a raw [response.data] of /api/generate/v2/ *)
| VData (d : string)            (* any other raw [response.data] *)
| VLyrics (l : lyrics).

(** An instance of the class [SunoApi]. *)
Record SunoApi := {
  client : option string;         (* the axios client, known by its Cookie header *)
  clerkVersion : option string;
  sid : option string;
  currentToken : option string;
  bindings : list Name.t
}.

Definition ref := nat.

(** ** The environment *)

Inductive endpoint :=
| ClerkVersion | ClerkClient | ClerkTokens | BillingInfo | GenerateV2
| GenerateConcat | LyricsSubmit | LyricsFetch | Feed | Clip | Sheet.

Inductive http (A : Type) :=
| NetworkError (msg : string)
| Response (a : A).
Arguments NetworkError {A} msg.
Arguments Response {A} a.

Record headers := { Cookie : string; Authorization : option string }.

(** The body of the jsDelivr answer as [getClerkLatestVersion] reads it,
    [data?.["tags"]["latest"]]: [data] may be missing, a [data] may lack its
    ["tags"], and the tags may lack a ["latest"]. *)
Inductive package :=
| NoData                          (* [data] is undefined or null *)
| NoTags                          (* [data["tags"]] is undefined or null *)
| Tags (latest : option string).  (* [data["tags"]["latest"]] *)

(** Modelled from the spec: the class [GoogleSheetService] is required by
    SunoApi.js and is not part of the sources at hand; its three methods
    are the Credential Store of the specification, [listCandidates] (an
    ordered list of credentials), [getActive] and [setActive (label, secret)].
    They are answered by the environment like every other remote call. *)
Record environment := {
  latency : nat -> endpoint -> N;
  random : nat -> nat;
  jsdelivr_package : nat -> headers -> http package;
  clerk_client : nat -> headers -> option string -> http (option string);
  clerk_tokens : nat -> headers -> option string -> option string -> http (option string);
  billing_info : nat -> headers -> http billing;
  generate_v2 : nat -> headers -> payload -> http (Z * list clip);
  generate_concat : nat -> headers -> string -> http (Z * string);
  lyrics_submit : nat -> headers -> string -> http (option string);
  lyrics_fetch : nat -> headers -> option string -> http lyrics;
  feed : nat -> headers -> option (list string) -> http (list clip);
  clip_info : nat -> headers -> string -> http string;
  getSunoLicenseKeys : nat -> http (list license);
  getSunoActiveLicense : nat -> http (option license);
  setSunoActiveLicense : nat -> string -> string -> http unit
}.

(** ** The world *)

Inductive event :=
| EvNew                                   (* new SunoApi() *)
| EvRequest (cookie : string) (e : endpoint)
| EvSleep (ms : Z)
| EvSheetKeys
| EvSheetGetActive
| EvSheetSetActive (account licenseKey : string).

Record world := {
  now : Z;                                (* Date.now() *)
  tick : nat;                             (* oracle consultations so far *)
  trace : list event;                     (* oldest first *)
  heap : list SunoApi;
  activeSunoLicense : option license;     (* module variable *)
  sunoApi : option ref                    (* module variable *)
}.

Definition emit (e : event) (w : world) : world :=
  {| now := now w; tick := tick w; trace := trace w ++ [e]; heap := heap w;
     activeSunoLicense := activeSunoLicense w; sunoApi := sunoApi w |}.

Definition consult (w : world) : world :=
  {| now := now w; tick := S (tick w); trace := trace w; heap := heap w;
     activeSunoLicense := activeSunoLicense w; sunoApi := sunoApi w |}.

Definition advance (ms : Z) (w : world) : world :=
  {| now := now w + ms; tick := tick w; trace := trace w; heap := heap w;
     activeSunoLicense := activeSunoLicense w; sunoApi := sunoApi w |}.

Definition with_heap (h : list SunoApi) (w : world) : world :=
  {| now := now w; tick := tick w; trace := trace w; heap := h;
     activeSunoLicense := activeSunoLicense w; sunoApi := sunoApi w |}.

Definition with_activeSunoLicense (l : option license) (w : world) : world :=
  {| now := now w; tick := tick w; trace := trace w; heap := heap w;
     activeSunoLicense := l; sunoApi := sunoApi w |}.

Definition with_sunoApi (r : ref) (w : world) : world :=
  {| now := now w; tick := tick w; trace := trace w; heap := heap w;
     activeSunoLicense := activeSunoLicense w; sunoApi := Some r |}.

(** The writes of the active pointer recorded in a trace. *)
Definition store_writes (tr : list event) : list (string * string) :=
  flat_map (fun e => match e with
                     | EvSheetSetActive a k => [(a, k)]
                     | _ => []
                     end) tr.

(** The instances created in a trace. *)
Definition instances_created (tr : list event) : nat :=
  List.length (List.filter (fun e => match e with EvNew => true | _ => false end) tr).

(** The billing queries recorded in a trace. *)
Definition quota_checks (tr : list event) : nat :=
  List.length (List.filter (fun e => match e with
                                     | EvRequest _ BillingInfo => true
                                     | _ => false
                                     end) tr).

(** ** The monad of asynchronous methods *)

Inductive result (A : Type) :=
| Ret (a : A)
| Throw (e : string)
| Diverge.
Arguments Ret {A} a.
Arguments Throw {A} e.
Arguments Diverge {A}.

Definition M (A : Type) : Type := world -> result A * world.

Definition ret {A} (a : A) : M A := fun w => (Ret a, w).
Definition throw {A} (e : string) : M A := fun w => (Throw e, w).
Definition diverge {A} : M A := fun w => (Diverge, w).

Definition bind {A B} (m : M A) (k : A -> M B) : M B :=
  fun w =>
    match m w with
    | (Ret a, w') => k a w'
    | (Throw e, w') => (Throw e, w')
    | (Diverge, w') => (Diverge, w')
    end.

Declare Scope async_scope.
Delimit Scope async_scope with async.
Notation "x <- m ;; k" := (bind m (fun x => k))
  (at level 100, m at next level, right associativity) : async_scope.
Notation "m ;;; k" := (bind m (fun _ => k))
  (at level 100, right associativity) : async_scope.
Local Open Scope async_scope.

Definition is_ret {A} (r : result A) : bool :=
  match r with Ret _ => true | _ => false end.

Definition modify_world (f : world -> world) : M unit := fun w => (Ret tt, f w).
Definition read_world {A} (f : world -> A) : M A := fun w => (Ret (f w), w).

(** [Date.now()] *)
Definition date_now : M Z := read_world now.

(** Property access on an instance. *)
Definition deref (this : ref) : M SunoApi :=
  fun w =>
    match heap w !! this with
    | Some o => (Ret o, w)
    | None => (Throw "TypeError: not an object", w)
    end.

Definition update (this : ref) (f : SunoApi -> SunoApi) : M unit :=
  fun w =>
    match heap w !! this with
    | Some o => (Ret tt, with_heap (<[this := f o]> (heap w)) w)
    | None => (Throw "TypeError: not an object", w)
    end.

(** [new SunoApi()]: the constructor leaves every field undefined. *)
Definition new_SunoApi : M ref :=
  fun w =>
    (Ret (List.length (heap w)),
     emit EvNew
       (with_heap (heap w ++ [{| client := None; clerkVersion := None; sid := None;
                                 currentToken := None; bindings := [] |}]) w)).

(** ** utils: [sleep] *)

Section Program.

Variable env : environment.

(** [sleep(x, y)]: [x] seconds, or, when [y] is given and differs from [x],
    [Math.floor(Math.random() * (max - min + 1) + min)] seconds.  The random
    double is abstracted by the residue of a natural number supplied by the
    environment, which ranges over the same integers [min .. max]. *)
Definition sleep (x : Z) (y : option Z) : M unit :=
  fun w =>
    match y with
    | Some y' =>
        if negb (y' =? x) then
          let min := Z.min x y' in
          let max := Z.max x y' in
          let timeout := (Z.of_nat (random env (tick w)) mod (max - min + 1) + min) * 1000 in
          (Ret tt, advance timeout (emit (EvSleep timeout) (consult w)))
        else (Ret tt, advance (x * 1000) (emit (EvSleep (x * 1000)) w))
    | None => (Ret tt, advance (x * 1000) (emit (EvSleep (x * 1000)) w))
    end.

(** ** The HTTP client *)

(** The request interceptor installed by [init]. *)
Definition interceptor (o : SunoApi) (cookie : string) : headers :=
  {| Cookie := cookie;
     Authorization :=
       if truthy (currentToken o)
       then Some ("Bearer " ++ default "" (currentToken o))%string
       else None |}.

(** [this.client.get/post(url, ..., {timeout})].  The call takes the time the
    environment says; with a timeout it fails once that much time has passed. *)
Definition request {A} (this : ref) (e : endpoint) (timeout : option Z)
    (oracle : nat -> headers -> http A) : M A :=
  o <- deref this ;;
  match client o with
  | None => throw "TypeError: Cannot read properties of undefined"
  | Some cookie =>
      fun w =>
        let d := Z.of_N (latency env (tick w) e) in
        let w1 := emit (EvRequest cookie e) (consult w) in
        let timed_out := match timeout with Some t => t <? d | None => false end in
        if timed_out then (Throw "timeout exceeded", advance (default 0 timeout) w1)
        else
          match oracle (tick w) (interceptor o cookie) with
          | NetworkError msg => (Throw msg, advance d w1)
          | Response a => (Ret a, advance d w1)
          end
  end.

(** A call of the sheet service. *)
Definition sheet_call {A} (ev : event) (oracle : nat -> http A) : M A :=
  fun w =>
    let d := Z.of_N (latency env (tick w) Sheet) in
    let w1 := advance d (emit ev (consult w)) in
    match oracle (tick w) with
    | NetworkError msg => (Throw msg, w1)
    | Response a => (Ret a, w1)
    end.

(** ** Session manager *)

Definition setupBindings (this : ref) : M unit :=
  update this (fun o =>
    {| client := client o; clerkVersion := clerkVersion o; sid := sid o;
       currentToken := currentToken o;
       bindings := [Name.generate; Name.concatenate; Name.custom_generate;
                    Name.generateLyrics; Name.extendAudio] |}).

(** The optional chain of [getClerkLatestVersion] stops at a missing [data];
    the ["latest"] of missing tags is read unguarded and throws. *)
Definition getClerkLatestVersion (this : ref) : M unit :=
  body <- request this ClerkVersion None (jsdelivr_package env) ;;
  match body with
  | NoData => throw "Failed to get clerk version info, Please try again later"
  | NoTags => throw "TypeError: Cannot read properties of undefined (reading 'latest')"
  | Tags latest =>
      if negb (truthy latest)
      then throw "Failed to get clerk version info, Please try again later"
      else update this (fun o =>
             {| client := client o; clerkVersion := latest; sid := sid o;
                currentToken := currentToken o; bindings := bindings o |})
  end.

Definition getAuthToken (this : ref) : M unit :=
  o <- deref this ;;
  session <- request this ClerkClient None
               (fun n h => clerk_client env n h (clerkVersion o)) ;;
  if negb (truthy session)
  then throw "Failed to get session id, you may need to update the SUNO_COOKIE"
  else update this (fun o =>
         {| client := client o; clerkVersion := clerkVersion o; sid := session;
            currentToken := currentToken o; bindings := bindings o |}).

Definition keepAlive (this : ref) (isWait : bool) : M unit :=
  o <- deref this ;;
  if negb (truthy (sid o))
  then throw "Session ID is not set. Cannot renew token."
  else
    jwt <- request this ClerkTokens None
             (fun n h => clerk_tokens env n h (sid o) (clerkVersion o)) ;;
    (if isWait then sleep 1 (Some 2) else ret tt) ;;;
    update this (fun o =>
      {| client := client o; clerkVersion := clerkVersion o; sid := sid o;
         currentToken := jwt; bindings := bindings o |}).

Definition init (this : ref) (cookie : string) : M ref :=
  setupBindings this ;;;
  update this (fun o =>
    {| client := Some cookie; clerkVersion := clerkVersion o; sid := sid o;
       currentToken := currentToken o; bindings := bindings o |}) ;;;
  getClerkLatestVersion this ;;;
  getAuthToken this ;;;
  keepAlive this false ;;;
  ret this.

Definition get_credits (this : ref) (alive : bool) : M credits :=
  (if negb alive then keepAlive this alive else ret tt) ;;;
  data <- request this BillingInfo None (billing_info env) ;;
  ret {| credits_left := total_credits_left data;
         credits_period := period data;
         credits_monthly_limit := monthly_limit data;
         credits_monthly_usage := monthly_usage data |}.

(** ** Feed *)

Definition newline : string := String (ascii_of_nat 10) EmptyString.

(** [s.split("\n")] *)
Fixpoint split_lines (s : string) : list string :=
  match s with
  | EmptyString => [EmptyString]
  | String c rest =>
      if Ascii.eqb c (ascii_of_nat 10) then EmptyString :: split_lines rest
      else match split_lines rest with
           | [] => [String c EmptyString]
           | l :: ls => String c l :: ls
           end
  end.

(** A string holds the UTF-8 encoding of the text, so that a line feed is
    the byte 10 and nothing else.  [trim] strips the WhiteSpace and the
    LineTerminator code points of ECMAScript: U+0009 to U+000D, U+0020,
    U+00A0, U+1680, U+2000 to U+200A, U+2028, U+2029, U+202F, U+205F, U+3000
    and U+FEFF.  They take one, two or three bytes. *)
Definition WhiteSpace : list N :=
  [0x9; 0xA; 0xB; 0xC; 0xD; 0x20; 0xA0; 0x1680;
   0x2000; 0x2001; 0x2002; 0x2003; 0x2004; 0x2005; 0x2006; 0x2007; 0x2008; 0x2009; 0x200A;
   0x2028; 0x2029; 0x202F; 0x205F; 0x3000; 0xFEFF]%N.

(** The UTF-8 encoding of a code point below U+10000. *)
Definition utf8 (cp : N) : string :=
  (if cp <? 0x80 then String (ascii_of_N cp) EmptyString
   else if cp <? 0x800 then
     String (ascii_of_N (0xC0 + cp / 64))
       (String (ascii_of_N (0x80 + cp mod 64)) EmptyString)
   else
     String (ascii_of_N (0xE0 + cp / 4096))
       (String (ascii_of_N (0x80 + (cp / 64) mod 64))
          (String (ascii_of_N (0x80 + cp mod 64)) EmptyString)))%N.

(** U+0009 to U+000D and U+0020 are one byte. *)
Definition is_space1 (c : ascii) : bool :=
  let n := nat_of_ascii c in
  ((9 <=? n) && (n <=? 13))%nat || (n =? 32)%nat.

(** U+00A0 is [C2 A0]. *)
Definition is_space2 (c1 c2 : ascii) : bool :=
  ((nat_of_ascii c1 =? 194) && (nat_of_ascii c2 =? 160))%nat.

(** U+1680 is [E1 9A 80]; U+2000 to U+200A, U+2028, U+2029 and U+202F are
    [E2 80 80] to [E2 80 8A], [E2 80 A8], [E2 80 A9] and [E2 80 AF]; U+205F
    is [E2 81 9F]; U+3000 is [E3 80 80]; U+FEFF is [EF BB BF]. *)
Definition is_space3 (c1 c2 c3 : ascii) : bool :=
  let a := nat_of_ascii c1 in
  let b := nat_of_ascii c2 in
  let c := nat_of_ascii c3 in
  ((a =? 225) && (b =? 154) && (c =? 128)
   || (a =? 226) && (b =? 128)
      && ((128 <=? c) && (c <=? 138) || (c =? 168) || (c =? 169) || (c =? 175))
   || (a =? 226) && (b =? 129) && (c =? 159)
   || (a =? 227) && (b =? 128) && (c =? 128)
   || (a =? 239) && (b =? 187) && (c =? 191))%nat.

(** [line.trim() !== ""]: past the white space at its start, something is
    left of the line. *)
Fixpoint not_blank (line : string) : bool :=
  match line with
  | EmptyString => false
  | String c1 rest1 =>
      if is_space1 c1 then not_blank rest1
      else
        match rest1 with
        | EmptyString => true
        | String c2 rest2 =>
            if is_space2 c1 c2 then not_blank rest2
            else
              match rest2 with
              | EmptyString => true
              | String c3 rest3 => if is_space3 c1 c2 c3 then not_blank rest3 else true
              end
        end
  end.

Definition parseLyrics (prompt : string) : string :=
  String.concat newline (List.filter not_blank (split_lines prompt)).

(** The mapping of [get]. *)
Definition audio_of_feed (audio : clip) : AudioInfo :=
  {| id := clip_id audio;
     title := clip_title audio;
     lyric := if truthy (clip_prompt audio)
              then Some (parseLyrics (default "" (clip_prompt audio)))
              else Some "";
     audio_url := clip_audio_url audio;
     status := clip_status audio;
     prompt := clip_prompt audio;
     tags := clip_tags audio;
     error_message := clip_error_message audio |}.

(** The mapping of [generateSongs] when it does not wait. *)
Definition audio_of_clip (audio : clip) : AudioInfo :=
  {| id := clip_id audio;
     title := clip_title audio;
     lyric := clip_prompt audio;
     audio_url := clip_audio_url audio;
     status := clip_status audio;
     prompt := clip_prompt audio;
     tags := clip_tags audio;
     error_message := None |}.

Definition get (this : ref) (songIds : option (list string)) : M (list AudioInfo) :=
  keepAlive this false ;;;
  audios <- request this Feed (Some 3000) (fun n h => feed env n h songIds) ;;
  ret (List.map audio_of_feed audios).

Definition getClip (this : ref) (clipId : string) : M value :=
  keepAlive this false ;;;
  data <- request this Clip None (fun n h => clip_info env n h clipId) ;;
  ret (VData data).

(** ** Job poller: the [wait_audio] branch of [generateSongs] *)

Definition allCompleted (response : list AudioInfo) : bool :=
  forallb (fun audio => (status audio =? "streaming")%string
                        || (status audio =? "complete")%string) response.

Definition allError (response : list AudioInfo) : bool :=
  forallb (fun audio => (status audio =? "error")%string) response.

(** [while (Date.now() - startTime < 100000) { ... }] *)
Fixpoint wait_loop (fuel : nat) (this : ref) (songIds : list string) (startTime : Z)
    (lastResponse : list AudioInfo) : M (list AudioInfo) :=
  match fuel with
  | O => diverge
  | S fuel' =>
      t <- date_now ;;
      if t - startTime <? 100000 then
        response <- get this (Some songIds) ;;
        if allCompleted response || allError response then ret response
        else
          sleep 3 (Some 6) ;;;
          keepAlive this true ;;;
          wait_loop fuel' this songIds startTime response
      else ret lastResponse
  end.

Definition awaitCompletion (fuel : nat) (this : ref) (songIds : list string)
    : M (list AudioInfo) :=
  startTime <- date_now ;;
  sleep 5 (Some 5) ;;;
  wait_loop fuel this songIds startTime [].

(** ** Generation operations (the prototype methods) *)

Definition DEFAULT_MODEL : string := "chirp-v3-5".

(** [model || DEFAULT_MODEL] *)
Definition model_or_default (model : option string) : string :=
  if truthy model then default "" model else DEFAULT_MODEL.

(** The [payload] that [generateSongs] builds. *)
Definition generateSongs_payload (prompt : string) (isCustom : bool)
    (tags title : option string) (make_instrumental : bool) (model : option string)
    (negative_tags : option string) : payload :=
  if isCustom then
    {| make_instrumental := make_instrumental; mv := model_or_default model;
       payload_prompt := prompt; payload_tags := tags; payload_title := title;
       payload_negative_tags := negative_tags; gpt_description_prompt := None;
       continue_clip_id := None; continue_at := None |}
  else
    {| make_instrumental := make_instrumental; mv := model_or_default model;
       payload_prompt := ""; payload_tags := None; payload_title := None;
       payload_negative_tags := None; gpt_description_prompt := Some prompt;
       continue_clip_id := None; continue_at := None |}.

Definition generateSongs (fuel : nat) (this : ref) (prompt : string) (isCustom : bool)
    (tags title : option string) (make_instrumental : bool) (model : option string)
    (wait_audio : bool) (negative_tags : option string) : M (list AudioInfo) :=
  keepAlive this false ;;;
  let payload :=
    generateSongs_payload prompt isCustom tags title make_instrumental model negative_tags in
  response <- request this GenerateV2 (Some 10000)
                (fun n h => generate_v2 env n h payload) ;;
  if negb (fst response =? 200) then throw "Error response:"
  else
    let songIds := List.map clip_id (snd response) in
    if wait_audio then awaitCompletion fuel this songIds
    else
      keepAlive this true ;;;
      ret (List.map audio_of_clip (snd response)).

Definition generate (fuel : nat) (this : ref) (prompt : string) (make_instrumental : bool)
    (model : option string) (wait_audio : bool) : M value :=
  keepAlive this false ;;;
  audios <- generateSongs fuel this prompt false None None make_instrumental model
              wait_audio None ;;
  ret (VAudios audios).

Definition concatenate (this : ref) (clip_id : string) : M value :=
  keepAlive this false ;;;
  response <- request this GenerateConcat (Some 10000)
                (fun n h => generate_concat env n h clip_id) ;;
  if negb (fst response =? 200) then throw "Error response:"
  else ret (VData (snd response)).

Definition custom_generate (fuel : nat) (this : ref) (prompt : string)
    (tags title : option string) (make_instrumental : bool) (model : option string)
    (wait_audio : bool) (negative_tags : option string) : M value :=
  audios <- generateSongs fuel this prompt true tags title make_instrumental model
              wait_audio negative_tags ;;
  ret (VAudios audios).

(** [while (lyricsResponse?.data?.status !== "complete") { ... }] *)
Fixpoint lyrics_loop (fuel : nat) (this : ref) (generateId : option string)
    (lyricsResponse : lyrics) : M lyrics :=
  if match lyrics_status lyricsResponse with
     | Some s => (s =? "complete")%string
     | None => false
     end
  then ret lyricsResponse
  else
    match fuel with
    | O => diverge
    | S fuel' =>
        sleep 2 None ;;;
        lyricsResponse' <- request this LyricsFetch None
                             (fun n h => lyrics_fetch env n h generateId) ;;
        lyrics_loop fuel' this generateId lyricsResponse'
    end.

Definition generateLyrics (fuel : nat) (this : ref) (prompt : string) : M value :=
  keepAlive this false ;;;
  generateId <- request this LyricsSubmit None
                  (fun n h => lyrics_submit env n h prompt) ;;
  lyricsResponse <- request this LyricsFetch None
                      (fun n h => lyrics_fetch env n h generateId) ;;
  data <- lyrics_loop fuel this generateId lyricsResponse ;;
  ret (VLyrics data).

Definition extendAudio (this : ref) (audioId prompt continueAt tags title : string)
    (model : option string) : M value :=
  response <- request this GenerateV2 None
                (fun n h => generate_v2 env n h
                   {| make_instrumental := false; mv := model_or_default model;
                      payload_prompt := prompt; payload_tags := Some tags;
                      payload_title := Some title; payload_negative_tags := None;
                      gpt_description_prompt := None;
                      continue_clip_id := Some audioId;
                      continue_at := Some continueAt |}) ;;
  ret (VClips (snd response)).

(** [method.apply(this, args)] for a method of the prototype. *)
Definition prototype (fuel : nat) (this : ref) (args : call) : M value :=
  match args with
  | Generate prompt make_instrumental model wait_audio =>
      generate fuel this prompt make_instrumental model wait_audio
  | Concatenate clip_id => concatenate this clip_id
  | CustomGenerate prompt tags title make_instrumental model wait_audio negative_tags =>
      custom_generate fuel this prompt tags title make_instrumental model wait_audio
        negative_tags
  | GenerateLyrics prompt => generateLyrics fuel this prompt
  | ExtendAudio audioId prompt continueAt tags title model =>
      extendAudio this audioId prompt continueAt tags title model
  end.

(** ** Credit failover *)

Definition newSunoApi (cookie : string) : M ref :=
  cookie' <- (if negb (truthy (Some cookie)) then
                lic <- sheet_call EvSheetGetActive (getSunoActiveLicense env) ;;
                modify_world (with_activeSunoLicense lic) ;;;
                match lic with
                | Some l => ret (licenseKey l)
                | None => throw "TypeError: Cannot read properties of null"
                end
              else ret cookie) ;;
  api <- new_SunoApi ;;
  init api cookie' ;;;
  ret api.

(** The literal of [credits.credits_left < 10] and [credits.credits_left >= 10]. *)
Definition licenseCheckDecorator_threshold : Z := 10.

(** [for (const lic of licKeys) { ... }]: [Some v] when the loop body
    returned [v], [None] when the loop ran to its end.  [lookup api args] is
    [(await sunoApi)[method.name](...args)]. *)
Fixpoint scan (lookup : ref -> call -> M value) (args : call) (licKeys : list license)
    : M (option value) :=
  match licKeys with
  | [] => ret None
  | lic :: rest =>
      api <- newSunoApi (licenseKey lic) ;;
      modify_world (with_sunoApi api) ;;;
      credits <- get_credits api false ;;
      if js_ge (credits_left credits) licenseCheckDecorator_threshold then
        modify_world (with_activeSunoLicense (Some lic)) ;;;
        sheet_call (EvSheetSetActive (account lic) (licenseKey lic))
          (fun n => setSunoActiveLicense env n (account lic) (licenseKey lic)) ;;;
        v <- lookup api args ;;
        ret (Some v)
      else scan lookup args rest
  end.

Definition licenseCheckDecorator (lookup method : ref -> call -> M value)
    (this : ref) (args : call) : M value :=
  credits <- get_credits this false ;;
  if js_lt (credits_left credits) licenseCheckDecorator_threshold then
    licKeys <- sheet_call EvSheetKeys (getSunoLicenseKeys env) ;;
    found <- scan lookup args licKeys ;;
    match found with
    | Some v => ret v
    | None =>
        (* the log line reads activeSunoLicense.account *)
        lic <- read_world activeSunoLicense ;;
        match lic with
        | Some _ => method this args
        | None => throw "TypeError: Cannot read properties of null"
        end
    end
  else method this args.

(** [this[name](...args)]: the own property installed by [setupBindings]
    when there is one, the method of the prototype otherwise. *)
Fixpoint invoke (fuel : nat) (this : ref) (args : call) : M value :=
  match fuel with
  | O => diverge
  | S fuel' =>
      o <- deref this ;;
      if existsb (Name.eqb (method_name args)) (bindings o)
      then licenseCheckDecorator (invoke fuel') (prototype fuel') this args
      else prototype fuel' this args
  end.

End Program.

(** ** SunoApi.ts: the feed guarded by [change_Account] *)

Module TS.
Section Program.

Variable env : environment.

(** [init] of SunoApi.ts installs no bindings. *)
Definition init (this : ref) (cookie : string) : M ref :=
  update this (fun o =>
    {| client := Some cookie; clerkVersion := clerkVersion o; sid := sid o;
       currentToken := currentToken o; bindings := bindings o |}) ;;;
  getClerkLatestVersion env this ;;;
  getAuthToken env this ;;;
  keepAlive env this false ;;;
  ret this.

(** The cookie literal of [change_Account] (its first component). *)
Definition new_Cookie : string := "__cf_bm=Pnar9zZp8l7qYXTKxeiwBZVSePm7Ir8uQV6.J8.fJs4-1730061365".

(** The literal of [credits.credits_left < 44]. *)
Definition change_Account_threshold : Z := 44.

Definition change_Account {A} (this : ref) (apiCall : ref -> M A) : M A :=
  credits <- get_credits env this false ;;
  if js_lt (credits_left credits) change_Account_threshold then
    api <- new_SunoApi ;;
    init api new_Cookie ;;;
    get_credits env api false ;;;
    apiCall api
  else apiCall this.

Definition get (this : ref) (songIds : option (list string)) : M (list AudioInfo) :=
  change_Account this (fun context =>
    keepAlive env context false ;;;
    audios <- request env context Feed (Some 3000) (fun n h => feed env n h songIds) ;;
    ret (List.map audio_of_feed audios)).

End Program.
End TS.

(** ** Scenarios

    Concrete environments on which the model is run.  Those built by
    [upstream] answer the version lookup with ["5.0"]; the remaining oracles
    are parameters. *)

Definition upstream (lat : nat -> endpoint -> N) (rnd : nat -> nat)
    (session : string -> option string) (jwt : option string)
    (quota : nat -> string -> option Z) (keys : list license)
    (clips : list clip) (queue : nat -> list clip)
    (lyr : nat -> option string) : environment :=
  {| latency := lat;
     random := rnd;
     jsdelivr_package := fun _ _ => Response (Tags (Some "5.0"));
     clerk_client := fun _ h _ => Response (session (Cookie h));
     clerk_tokens := fun _ _ _ _ => Response jwt;
     billing_info := fun n h =>
       Response {| total_credits_left := quota n (Cookie h); period := Some "month";
                   monthly_limit := Some 500; monthly_usage := Some 0 |};
     generate_v2 := fun _ _ _ => Response (200, clips);
     generate_concat := fun _ _ _ => Response (200, "concatenated");
     lyrics_submit := fun _ _ _ => Response (Some "lyrics-1");
     lyrics_fetch := fun n _ _ =>
       Response {| lyrics_status := lyr n; lyrics_text := "la la" |};
     feed := fun n _ _ => Response (queue n);
     clip_info := fun _ _ _ => Response "clip";
     getSunoLicenseKeys := fun _ => Response keys;
     getSunoActiveLicense := fun _ =>
       Response (Some {| account := "main"; licenseKey := "cookie-main" |});
     setSunoActiveLicense := fun _ _ _ => Response tt |}.

Definition instant : nat -> endpoint -> N := fun _ _ => 0%N.

(** Every cookie but ["cookie-expired"] has a session. *)
Definition sessions (cookie : string) : option string :=
  if (cookie =? "cookie-expired")%string then None else Some "sess_1".

Definition lic_a : license := {| account := "a"; licenseKey := "cookie-a" |}.
Definition lic_b : license := {| account := "b"; licenseKey := "cookie-b" |}.
Definition lic_c : license := {| account := "c"; licenseKey := "cookie-c" |}.
Definition lic_expired : license := {| account := "x"; licenseKey := "cookie-expired" |}.

(** The quota of each account when it does not change: [b] is the only
    candidate at or above 10. *)
Definition steady_quota (main : Z) (cookie : string) : option Z :=
  if (cookie =? "cookie-main")%string then Some main
  else if (cookie =? "cookie-b")%string then Some 50
  else Some 3.

Definition queued_clip : clip :=
  {| clip_id := "job-1"; clip_title := "song"; clip_audio_url := "";
     clip_status := "queued"; clip_prompt := None; clip_tags := None;
     clip_error_message := None |}.

(** The active account has 50 credits. *)
Definition env_plenty : environment :=
  upstream instant (fun _ => 0%nat) sessions (Some "jwt") (fun _ => steady_quota 50)
    [lic_a; lic_b; lic_c] [queued_clip] (fun _ => [queued_clip]) (fun _ => Some "complete").

(** The active account has 20 credits. *)
Definition env_between : environment :=
  upstream instant (fun _ => 0%nat) sessions (Some "jwt") (fun _ => steady_quota 20)
    [lic_a; lic_b; lic_c] [queued_clip] (fun _ => [queued_clip]) (fun _ => Some "complete").

(** The active account has 5 credits; the sheet lists a, b, c. *)
Definition env_failover : environment :=
  upstream instant (fun _ => 0%nat) sessions (Some "jwt") (fun _ => steady_quota 5)
    [lic_a; lic_b; lic_c] [queued_clip] (fun _ => [queued_clip]) (fun _ => Some "complete").


(** The active account has 5 credits; the only listed cookie has expired. *)
Definition env_expired_only : environment :=
  upstream instant (fun _ => 0%nat) sessions (Some "jwt") (fun _ => steady_quota 5)
    [lic_expired] [queued_clip] (fun _ => [queued_clip]) (fun _ => Some "complete").

(** The active account has 5 credits; an expired cookie is listed before b. *)
Definition env_expired_first : environment :=
  upstream instant (fun _ => 0%nat) sessions (Some "jwt") (fun _ => steady_quota 5)
    [lic_expired; lic_b] [queued_clip] (fun _ => [queued_clip]) (fun _ => Some "complete").

(** The active account has 5 credits.  The credits of a are read as 50 when
    a is first examined and as 3 from the next query on (somebody else
    spent them in between); those of b are 50. *)
Definition env_flapping : environment :=
  upstream instant (fun _ => 0%nat) sessions (Some "jwt")
    (fun n cookie =>
       if (cookie =? "cookie-a")%string
       then (if (n <? 12)%nat then Some 50 else Some 3)
       else steady_quota 5 cookie)
    [lic_a; lic_b] [queued_clip] (fun _ => [queued_clip]) (fun _ => Some "complete").

(** The token endpoint answers 200 with a body that has no [jwt] field. *)
Definition env_no_jwt : environment :=
  upstream instant (fun _ => 0%nat) sessions None (fun _ => steady_quota 50)
    [] [queued_clip] (fun _ => [queued_clip]) (fun _ => Some "complete").


(** No latency at all; the job stays queued; the random draws make the first
    pause between polls 4 s and every other pause 6 s, and every pause after
    a renewal 2 s. *)
Definition env_unlucky : environment :=
  upstream instant (fun n => if (n <? 8)%nat then 1%nat else 3%nat)
    sessions (Some "jwt") (fun _ => steady_quota 50)
    [] [queued_clip] (fun _ => [queued_clip]) (fun _ => Some "complete").

(** The lyrics never complete. *)
Definition env_lyrics_stuck : environment :=
  upstream instant (fun _ => 0%nat) sessions (Some "jwt") (fun _ => steady_quota 50)
    [] [queued_clip] (fun _ => [queued_clip]) (fun _ => Some "running").

(** The lyrics complete at the third fetch. *)
Definition env_lyrics_third : environment :=
  upstream instant (fun _ => 0%nat) sessions (Some "jwt") (fun _ => steady_quota 50)
    [] [queued_clip] (fun _ => [queued_clip])
    (fun n => if (n <? 8)%nat then Some "running" else Some "complete").

(** The submission is accepted with no clips; the feed, asked for no ids,
    lists a queued job of the account. *)
Definition env_no_clips : environment :=
  upstream instant (fun _ => 0%nat) sessions (Some "jwt") (fun _ => steady_quota 50)
    [] [] (fun _ => [queued_clip]) (fun _ => Some "complete").

(** The submission is accepted with no clips and the feed is empty. *)
Definition env_empty_feed : environment :=
  upstream instant (fun _ => 0%nat) sessions (Some "jwt") (fun _ => steady_quota 50)
    [] [] (fun _ => []) (fun _ => Some "complete").

Definition complete_clip : clip :=
  {| clip_id := "job-1"; clip_title := "song"; clip_audio_url := "https://cdn/job-1.mp3";
     clip_status := "complete"; clip_prompt := Some "la la"; clip_tags := None;
     clip_error_message := None |}.

Definition failed_clip : clip :=
  {| clip_id := "job-2"; clip_title := "song"; clip_audio_url := "";
     clip_status := "error"; clip_prompt := None; clip_tags := None;
     clip_error_message := Some "moderation" |}.

(** The two jobs are queued at the first poll and complete at the second. *)
Definition env_second_poll : environment :=
  upstream instant (fun _ => 0%nat) sessions (Some "jwt") (fun _ => steady_quota 50)
    [] [queued_clip; queued_clip]
    (fun n => if (n <? 10)%nat then [queued_clip; queued_clip]
              else [complete_clip; complete_clip])
    (fun _ => Some "complete").

(** One job has completed and the other has failed, for good. *)
Definition env_partly_failed : environment :=
  upstream instant (fun _ => 0%nat) sessions (Some "jwt") (fun _ => steady_quota 50)
    [] [queued_clip; queued_clip] (fun _ => [complete_clip; failed_clip])
    (fun _ => Some "complete").

(** As [env_plenty], with submissions answered by status 202. *)
Definition env_accepted_202 : environment :=
  {| latency := latency env_plenty;
     random := random env_plenty;
     jsdelivr_package := jsdelivr_package env_plenty;
     clerk_client := clerk_client env_plenty;
     clerk_tokens := clerk_tokens env_plenty;
     billing_info := billing_info env_plenty;
     generate_v2 := fun _ _ _ => Response (202, [queued_clip]);
     generate_concat := fun _ _ _ => Response (202, "accepted");
     lyrics_submit := lyrics_submit env_plenty;
     lyrics_fetch := lyrics_fetch env_plenty;
     feed := feed env_plenty;
     clip_info := clip_info env_plenty;
     getSunoLicenseKeys := getSunoLicenseKeys env_plenty;
     getSunoActiveLicense := getSunoActiveLicense env_plenty;
     setSunoActiveLicense := setSunoActiveLicense env_plenty |}.

(** The billing endpoint answers without [total_credits_left]. *)
Definition env_unreadable : environment :=
  upstream instant (fun _ => 0%nat) sessions (Some "jwt") (fun _ _ => None)
    [lic_a; lic_b] [queued_clip] (fun _ => [queued_clip]) (fun _ => Some "complete").

(** As [env_failover], with a sheet that refuses every write. *)
Definition env_readonly_sheet : environment :=
  {| latency := latency env_failover;
     random := random env_failover;
     jsdelivr_package := jsdelivr_package env_failover;
     clerk_client := clerk_client env_failover;
     clerk_tokens := clerk_tokens env_failover;
     billing_info := billing_info env_failover;
     generate_v2 := generate_v2 env_failover;
     generate_concat := generate_concat env_failover;
     lyrics_submit := lyrics_submit env_failover;
     lyrics_fetch := lyrics_fetch env_failover;
     feed := feed env_failover;
     clip_info := clip_info env_failover;
     getSunoLicenseKeys := getSunoLicenseKeys env_failover;
     getSunoActiveLicense := getSunoActiveLicense env_failover;
     setSunoActiveLicense := fun _ _ _ => NetworkError "The sheet is read-only" |}.

(** As [env_plenty], with a sheet that has no active license. *)
Definition env_no_active : environment :=
  {| latency := latency env_plenty;
     random := random env_plenty;
     jsdelivr_package := jsdelivr_package env_plenty;
     clerk_client := clerk_client env_plenty;
     clerk_tokens := clerk_tokens env_plenty;
     billing_info := billing_info env_plenty;
     generate_v2 := generate_v2 env_plenty;
     generate_concat := generate_concat env_plenty;
     lyrics_submit := lyrics_submit env_plenty;
     lyrics_fetch := lyrics_fetch env_plenty;
     feed := feed env_plenty;
     clip_info := clip_info env_plenty;
     getSunoLicenseKeys := getSunoLicenseKeys env_plenty;
     getSunoActiveLicense := fun _ => Response None;
     setSunoActiveLicense := setSunoActiveLicense env_plenty |}.

(** As [env_plenty], with a package answer that has no ["tags"]. *)
Definition env_no_tags : environment :=
  {| latency := latency env_plenty;
     random := random env_plenty;
     jsdelivr_package := fun _ _ => Response NoTags;
     clerk_client := clerk_client env_plenty;
     clerk_tokens := clerk_tokens env_plenty;
     billing_info := billing_info env_plenty;
     generate_v2 := generate_v2 env_plenty;
     generate_concat := generate_concat env_plenty;
     lyrics_submit := lyrics_submit env_plenty;
     lyrics_fetch := lyrics_fetch env_plenty;
     feed := feed env_plenty;
     clip_info := clip_info env_plenty;
     getSunoLicenseKeys := getSunoLicenseKeys env_plenty;
     getSunoActiveLicense := getSunoActiveLicense env_plenty;
     setSunoActiveLicense := setSunoActiveLicense env_plenty |}.

(** As [env_plenty], with tags that have no ["latest"]. *)
Definition env_no_version : environment :=
  {| latency := latency env_plenty;
     random := random env_plenty;
     jsdelivr_package := fun _ _ => Response (Tags None);
     clerk_client := clerk_client env_plenty;
     clerk_tokens := clerk_tokens env_plenty;
     billing_info := billing_info env_plenty;
     generate_v2 := generate_v2 env_plenty;
     generate_concat := generate_concat env_plenty;
     lyrics_submit := lyrics_submit env_plenty;
     lyrics_fetch := lyrics_fetch env_plenty;
     feed := feed env_plenty;
     clip_info := clip_info env_plenty;
     getSunoLicenseKeys := getSunoLicenseKeys env_plenty;
     getSunoActiveLicense := getSunoActiveLicense env_plenty;
     setSunoActiveLicense := setSunoActiveLicense env_plenty |}.



(** The job is queued for the first polls of the wait and streams later,
    beside one that stays queued. *)
Definition streaming_clip : clip :=
  {| clip_id := "job-2"; clip_title := "song"; clip_audio_url := "https://cdn/job-2.mp3";
     clip_status := "streaming"; clip_prompt := None; clip_tags := None;
     clip_error_message := None |}.

Definition env_late_change : environment :=
  upstream instant (fun _ => 0%nat) sessions (Some "jwt") (fun _ => steady_quota 50)
    [] [queued_clip; queued_clip]
    (fun n => if (n <? 60)%nat then [queued_clip; queued_clip]
              else [queued_clip; streaming_clip])
    (fun _ => Some "complete").

(** White space that is not ASCII: U+00A0, U+3000 and U+2028. *)
Definition no_break_space : string :=
  String (ascii_of_nat 194) (String (ascii_of_nat 160) EmptyString).

Definition ideographic_space : string :=
  String (ascii_of_nat 227) (String (ascii_of_nat 128) (String (ascii_of_nat 128) EmptyString)).

Definition line_separator : string :=
  String (ascii_of_nat 226) (String (ascii_of_nat 128) (String (ascii_of_nat 168) EmptyString)).

(** A finished job whose lyrics have two verses, two blank lines between
    them and a line feed at the end. *)
Definition verses_clip : clip :=
  {| clip_id := "job-1"; clip_title := "song"; clip_audio_url := "https://cdn/job-1.mp3";
     clip_status := "complete";
     clip_prompt := Some ("verse one" ++ newline ++ newline ++ "   " ++ newline
                          ++ "verse two" ++ newline)%string;
     clip_tags := None; clip_error_message := None |}.

(** The feed holds that job behind one that has no lyrics yet. *)
Definition env_verses : environment :=
  upstream instant (fun _ => 0%nat) sessions (Some "jwt") (fun _ => steady_quota 50)
    [] [queued_clip] (fun _ => [queued_clip; verses_clip]) (fun _ => Some "complete").

(** The world before the module is loaded. *)
Definition fresh : world :=
  {| now := 0; tick := 0; trace := []; heap := []; activeSunoLicense := None;
     sunoApi := None |}.

(** [export let sunoApi = newSunoApi('')] *)
Definition load (env : environment) : M ref :=
  api <- newSunoApi env "" ;;
  modify_world (with_sunoApi api) ;;;
  ret api.

(** The world once the module is loaded; the exported instance is [0]. *)
Definition loaded (env : environment) : world := snd (load env fresh).

(** * Specification vocabulary *)

Local Open Scope list_scope.

(** [respects R m]: whatever its outcome, [m] leaves the world in relation
    [R] with the world it started from. *)
Definition respects {A} (R : world -> world -> Prop) (m : M A) : Prop :=
  forall w, R w (snd (m w)).

(** What a relation must allow for the methods of the prototype to respect
    it: consulting the environment, letting time pass, sending a request,
    sleeping, and writing a field other than the bindings. *)
Record laws (R : world -> world -> Prop) : Prop := {
  law_refl : forall w, R w w;
  law_trans : forall w1 w2 w3, R w1 w2 -> R w2 w3 -> R w1 w3;
  law_consult : forall w, R w (consult w);
  law_advance : forall ms w, 0 <= ms -> R w (advance ms w);
  law_request : forall cookie e w, R w (emit (EvRequest cookie e) w);
  law_sleep : forall ms w, R w (emit (EvSleep ms) w);
  law_update : forall this o o' w,
    heap w !! this = Some o -> bindings o' = bindings o ->
    R w (with_heap (<[this := o']> (heap w)) w)
}.

(** The trace only grows, by events in [P]. *)
Definition appends (P : event -> Prop) (w w' : world) : Prop :=
  exists evs, trace w' = trace w ++ evs /\ Forall P evs.

(** Requests to the upstream and sleeps: the events of the prototype. *)
Definition upstream_only (e : event) : Prop :=
  match e with
  | EvRequest _ _ | EvSleep _ => True
  | _ => False
  end.

(** Everything but a write of the active pointer. *)
Definition not_a_write (e : event) : Prop :=
  match e with
  | EvSheetSetActive _ _ => False
  | _ => True
  end.

(** A string without a line feed. *)
Fixpoint single_line (s : string) : bool :=
  match s with
  | EmptyString => true
  | String c rest => negb (Ascii.eqb c (ascii_of_nat 10)) && single_line rest
  end.

(** Everything but an access to the credential sheet. *)
Definition no_sheet_event (e : event) : Prop :=
  match e with
  | EvSheetKeys | EvSheetGetActive | EvSheetSetActive _ _ => False
  | _ => True
  end.

(** Everything but a fetch of the feed. *)
Definition not_a_fetch (e : event) : Prop :=
  match e with
  | EvRequest _ Feed => False
  | _ => True
  end.

(** The two tests that end the wait. *)
Definition terminal (response : list AudioInfo) : bool :=
  allCompleted response || allError response.


(** The test of the lyrics poll, [status === "complete"]. *)
Definition complete (l : lyrics) : bool :=
  match lyrics_status l with
  | Some s => (s =? "complete")%string
  | None => false
  end.

(** The events of the lyrics poll: a fetch, or a sleep of exactly 2 seconds. *)
Definition lyrics_poll_event (e : event) : Prop :=
  match e with
  | EvSleep ms => ms = 2000
  | EvRequest _ LyricsFetch => True
  | _ => False
  end.

(** The events of [n] turns of the lyrics poll of the Session of [cookie]. *)
Fixpoint lyrics_polls (cookie : string) (n : nat) : list event :=
  match n with
  | O => []
  | S n' => EvSleep 2000 :: EvRequest cookie LyricsFetch :: lyrics_polls cookie n'
  end.

Definition same_license (w w' : world) : Prop :=
  activeSunoLicense w' = activeSunoLicense w.

Definition same_sunoApi (w w' : world) : Prop := sunoApi w' = sunoApi w.

Definition same_bindings (w w' : world) : Prop :=
  forall this o, heap w !! this = Some o ->
                 exists o', heap w' !! this = Some o' /\ bindings o' = bindings o.

(** One turn of the candidate loop up to its test: a Session is created for
    the candidate and its quota is read. *)
Definition probe (env : environment) (lic : license) : M (ref * credits) :=
  api <- newSunoApi env (licenseKey lic) ;;
  modify_world (with_sunoApi api) ;;;
  credits <- get_credits env api false ;;
  ret (api, credits).

(** [rejected env pre w = Some w']: examined in turn from [w], every
    candidate of [pre] initialises and answers the quota query, none with
    10 credits or more, and this leaves the world [w']. *)
Fixpoint rejected (env : environment) (pre : list license) (w : world) : option world :=
  match pre with
  | [] => Some w
  | lic :: rest =>
      match probe env lic w with
      | (Ret (_, cr), w') =>
          if js_ge (credits_left cr) licenseCheckDecorator_threshold then None
          else rejected env rest w'
      | _ => None
      end
  end.

(** [progress lo m]: [m] ends, and not before [lo] ms when it returns. *)
Definition progress {A} (lo : Z) (m : M A) : Prop :=
  forall w, fst (m w) <> Diverge
            /\ (is_ret (fst (m w)) = true -> now w + lo <= now (snd (m w))).


(** * Properties *)

(** ** Running a sequence *)

Lemma bind_ret {A B} (m : M A) (k : A -> M B) w a w' :
  m w = (Ret a, w') -> bind m k w = k a w'.
Proof. intros H. unfold bind. now rewrite H. Qed.

Lemma bind_returns {A B} (m : M A) (k : A -> M B) w b w' :
  bind m k w = (Ret b, w') ->
  exists a w1, m w = (Ret a, w1) /\ k a w1 = (Ret b, w').
Proof.
  unfold bind. destruct (m w) as [[a | e |] w1]; intros H; try discriminate.
  now exists a, w1.
Qed.

(** ** Requests *)

Lemma request_returns {A} env this e timeout (oracle : nat -> headers -> http A) w a w' :
  request env this e timeout oracle w = (Ret a, w') ->
  exists h, oracle (tick w) h = Response a.
Proof.
  unfold request, bind, deref.
  destruct (heap w !! this) as [o |]; [| discriminate].
  destruct (client o) as [cookie |]; [| discriminate].
  destruct (match timeout with Some t => t <? _ | None => false end); [discriminate |].
  destruct (oracle (tick w) (interceptor o cookie)) as [msg | a'] eqn:E; [discriminate |].
  intros H. inversion H; subst. now exists (interceptor o cookie).
Qed.

Lemma request_trace {A} env this e timeout (oracle : nat -> headers -> http A) w :
  trace (snd (request env this e timeout oracle w)) = trace w
  \/ exists cookie,
       trace (snd (request env this e timeout oracle w)) = trace w ++ [EvRequest cookie e].
Proof.
  unfold request, bind, deref.
  destruct (heap w !! this) as [o |]; [| now left].
  destruct (client o) as [cookie |]; [| now left].
  right. exists cookie.
  destruct (match timeout with Some t => t <? _ | None => false end); [reflexivity |].
  now destruct (oracle (tick w) (interceptor o cookie)).
Qed.

Lemma request_responds {A} env this e (oracle : nat -> headers -> http A) w o cookie a :
  heap w !! this = Some o -> client o = Some cookie ->
  oracle (tick w) (interceptor o cookie) = Response a ->
  request env this e None oracle w
  = (Ret a, advance (Z.of_N (latency env (tick w) e))
              (emit (EvRequest cookie e) (consult w))).
Proof.
  intros Ho Hc Ha. unfold request, bind, deref. rewrite Ho, Hc. simpl. now rewrite Ha.
Qed.

(** ** Frames *)

Section Respects.

Variable env : environment.
Variable R : world -> world -> Prop.
Hypothesis HR : laws R.

Lemma respects_ret {A} (a : A) : respects R (ret a).
Proof. intros w. apply (law_refl R HR). Qed.

Lemma respects_throw {A} e : respects R (@throw A e).
Proof. intros w. apply (law_refl R HR). Qed.

Lemma respects_diverge {A} : respects R (@diverge A).
Proof. intros w. apply (law_refl R HR). Qed.

Lemma respects_bind {A B} (m : M A) (k : A -> M B) :
  respects R m -> (forall a, respects R (k a)) -> respects R (bind m k).
Proof.
  intros Hm Hk w. unfold bind. specialize (Hm w).
  destruct (m w) as [[a | e |] w1]; simpl in Hm; try exact Hm.
  apply (law_trans R HR _ w1); [exact Hm | apply Hk].
Qed.

Lemma respects_if {A} (b : bool) (m1 m2 : M A) :
  respects R m1 -> respects R m2 -> respects R (if b then m1 else m2).
Proof. now destruct b. Qed.

Lemma respects_read_world {A} (f : world -> A) : respects R (read_world f).
Proof. intros w. apply (law_refl R HR). Qed.

Lemma respects_deref this : respects R (deref this).
Proof.
  intros w. unfold deref. destruct (heap w !! this); apply (law_refl R HR).
Qed.

Lemma respects_update this f :
  (forall o, bindings (f o) = bindings o) -> respects R (update this f).
Proof.
  intros Hf w. unfold update. destruct (heap w !! this) as [o |] eqn:E; simpl.
  - now apply (law_update R HR this o).
  - apply (law_refl R HR).
Qed.

Lemma respects_sleep x y :
  0 <= x -> match y with Some y' => 0 <= y' | None => True end ->
  respects R (sleep env x y).
Proof.
  intros Hx Hy w. unfold sleep.
  assert (plain : R w (advance (x * 1000) (emit (EvSleep (x * 1000)) w))).
  { eapply (law_trans R HR); [apply (law_sleep R HR) | apply (law_advance R HR); lia]. }
  destruct y as [y |]; [| exact plain].
  destruct (negb (y =? x)); [| exact plain]. simpl.
  eapply (law_trans R HR); [apply (law_consult R HR) |].
  eapply (law_trans R HR); [apply (law_sleep R HR) |].
  apply (law_advance R HR).
  pose proof (Z.mod_pos_bound (Z.of_nat (random env (tick w)))
                (Z.max x y - Z.min x y + 1)). lia.
Qed.

Lemma respects_request {A} this e timeout (oracle : nat -> headers -> http A) :
  match timeout with Some t => 0 <= t | None => True end ->
  respects R (request env this e timeout oracle).
Proof.
  intros Ht. unfold request. apply respects_bind; [apply respects_deref |].
  intros o. destruct (client o) as [cookie |]; [| apply respects_throw].
  intros w.
  assert (sent : R w (emit (EvRequest cookie e) (consult w))).
  { eapply (law_trans R HR); [apply (law_consult R HR) | apply (law_request R HR)]. }
  destruct timeout as [t |]; simpl.
  - destruct (t <? _); simpl.
    + eapply (law_trans R HR); [exact sent | now apply (law_advance R HR)].
    + destruct (oracle _ _); simpl;
        (eapply (law_trans R HR); [exact sent | apply (law_advance R HR); lia]).
  - destruct (oracle _ _); simpl;
      (eapply (law_trans R HR); [exact sent | apply (law_advance R HR); lia]).
Qed.

Ltac frame :=
  repeat first
    [ apply respects_ret | apply respects_throw | apply respects_diverge
    | apply respects_deref | apply respects_read_world
    | apply respects_update; reflexivity
    | apply respects_sleep; simpl; lia
    | apply respects_request; simpl; lia
    | apply respects_request; exact I
    | apply respects_if
    | apply respects_bind; [| intros ? ]
    | progress cbv zeta ].

Lemma respects_keepAlive this isWait : respects R (keepAlive env this isWait).
Proof. unfold keepAlive. frame. Qed.

Lemma respects_getClerkLatestVersion this : respects R (getClerkLatestVersion env this).
Proof.
  unfold getClerkLatestVersion. frame.
  match goal with |- respects _ (match ?body with _ => _ end) => destruct body end; frame.
Qed.

Lemma respects_getAuthToken this : respects R (getAuthToken env this).
Proof. unfold getAuthToken. frame. Qed.

Lemma respects_get_credits this alive : respects R (get_credits env this alive).
Proof. unfold get_credits. frame; apply respects_keepAlive. Qed.

Lemma respects_get this songIds : respects R (get env this songIds).
Proof. unfold get. frame; apply respects_keepAlive. Qed.

Lemma respects_wait_loop fuel this songIds startTime lastResponse :
  respects R (wait_loop env fuel this songIds startTime lastResponse).
Proof.
  revert lastResponse.
  induction fuel as [| fuel IH]; intros lastResponse; simpl; [apply respects_diverge |].
  unfold date_now. frame; auto using respects_get, respects_keepAlive.
Qed.

Lemma respects_awaitCompletion fuel this songIds :
  respects R (awaitCompletion env fuel this songIds).
Proof. unfold awaitCompletion, date_now. frame. apply respects_wait_loop. Qed.

Lemma respects_generateSongs fuel this prompt isCustom tags title mi model wait negative :
  respects R (generateSongs env fuel this prompt isCustom tags title mi model wait negative).
Proof.
  unfold generateSongs. frame; auto using respects_keepAlive, respects_wait_loop.
Qed.

Lemma respects_lyrics_loop fuel this generateId lyricsResponse :
  respects R (lyrics_loop env fuel this generateId lyricsResponse).
Proof.
  revert lyricsResponse.
  induction fuel as [| fuel IH]; intros lyricsResponse; simpl; frame. apply IH.
Qed.

Lemma respects_prototype fuel this args : respects R (prototype env fuel this args).
Proof.
  destruct args; simpl;
    unfold generate, concatenate, custom_generate, generateLyrics, extendAudio;
    frame; auto using respects_keepAlive, respects_wait_loop, respects_lyrics_loop.
Qed.

(** [init] rewrites the bindings: it respects the relations that allow any
    write to the heap. *)
Lemma respects_init this cookie :
  (forall h w, R w (with_heap h w)) -> respects R (init env this cookie).
Proof.
  intros Hheap.
  assert (Hupd : forall f, respects R (update this f)).
  { intros f w. unfold update. destruct (heap w !! this); simpl;
      [apply Hheap | apply (law_refl R HR)]. }
  unfold init, setupBindings.
  apply respects_bind; [apply Hupd | intros _].
  apply respects_bind; [apply Hupd | intros _].
  apply respects_bind; [apply respects_getClerkLatestVersion | intros _].
  apply respects_bind; [apply respects_getAuthToken | intros _].
  apply respects_bind; [apply respects_keepAlive | intros _].
  apply respects_ret.
Qed.

End Respects.

(** ** The relations that the prototype respects *)

Lemma appends_laws (P : event -> Prop) :
  (forall cookie e, P (EvRequest cookie e)) -> (forall ms, P (EvSleep ms)) ->
  laws (appends P).
Proof.
  intros Hreq Hsleep.
  assert (same : forall w w', trace w' = trace w -> appends P w w').
  { intros w w' E. exists []. rewrite E, app_nil_r. split; [reflexivity | constructor]. }
  split; intros; try (apply same; reflexivity).
  - destruct H as (e1 & E1 & F1), H0 as (e2 & E2 & F2).
    exists (e1 ++ e2). split; [now rewrite E2, E1, app_assoc | now apply Forall_app].
  - exists [EvRequest cookie e]. split; [reflexivity | repeat constructor; apply Hreq].
  - exists [EvSleep ms]. split; [reflexivity | repeat constructor; apply Hsleep].
Qed.

Lemma upstream_only_laws : laws (appends upstream_only).
Proof. apply appends_laws; intros; exact I. Qed.

Lemma same_license_laws : laws same_license.
Proof.
  split; unfold same_license; intros; try reflexivity.
  now rewrite H0, H.
Qed.

Lemma same_sunoApi_laws : laws same_sunoApi.
Proof.
  split; unfold same_sunoApi; intros; try reflexivity.
  now rewrite H0, H.
Qed.

Lemma same_bindings_laws : laws same_bindings.
Proof.
  split; unfold same_bindings; intros; simpl; eauto.
  - destruct (H _ _ H1) as (o1 & E1 & B1).
    destruct (H0 _ _ E1) as (o2 & E2 & B2).
    exists o2. split; [exact E2 | congruence].
  - destruct (decide (this0 = this)) as [-> | Hne].
    + exists o'. split; [| congruence].
      apply list_lookup_insert_eq. eapply lookup_lt_Some; eassumption.
    + exists o0. split; [| reflexivity].
      rewrite list_lookup_insert_ne; [assumption | congruence].
Qed.

(** ** Reading a trace *)

Lemma store_writes_app l1 l2 : store_writes (l1 ++ l2) = store_writes l1 ++ store_writes l2.
Proof. unfold store_writes. apply flat_map_app. Qed.

Lemma instances_created_app l1 l2 :
  instances_created (l1 ++ l2) = (instances_created l1 + instances_created l2)%nat.
Proof. unfold instances_created. now rewrite List.filter_app, length_app. Qed.

Lemma no_store_writes evs : Forall not_a_write evs -> store_writes evs = [].
Proof.
  induction 1 as [| e evs He _ IH]; [reflexivity |].
  unfold store_writes in *. simpl. rewrite IH. now destruct e.
Qed.

Lemma upstream_is_not_a_write evs : Forall upstream_only evs -> Forall not_a_write evs.
Proof. apply List.Forall_impl. now intros []. Qed.

Lemma no_instances_created evs : Forall upstream_only evs -> instances_created evs = 0%nat.
Proof.
  induction 1 as [| e evs He _ IH]; [reflexivity |].
  unfold instances_created in *. simpl. now destruct e.
Qed.

Lemma appends_store_writes w w' :
  appends not_a_write w w' -> store_writes (trace w') = store_writes (trace w).
Proof.
  intros (evs & E & F). now rewrite E, store_writes_app, (no_store_writes evs), app_nil_r.
Qed.

Lemma appends_upstream_store_writes w w' :
  appends upstream_only w w' -> store_writes (trace w') = store_writes (trace w).
Proof.
  intros (evs & E & F). apply appends_store_writes.
  exists evs. split; [exact E | now apply upstream_is_not_a_write].
Qed.

Lemma appends_upstream_instances w w' :
  appends upstream_only w w' -> instances_created (trace w') = instances_created (trace w).
Proof.
  intros (evs & E & F).
  rewrite E, instances_created_app, (no_instances_created evs) by assumption. lia.
Qed.

(** A result of the relation form, for a run that is known. *)
Lemma respects_run {A} R (m : M A) w r w' : respects R m -> m w = (r, w') -> R w w'.
Proof. intros H E. specialize (H w). now rewrite E in H. Qed.

(** ** The guard when the quota suffices *)

Lemma js_lt_ge x n : js_ge x n = true -> js_lt x n = false.
Proof. destruct x as [z |]; simpl; [| discriminate]. lia. Qed.

Lemma invoke_bound env fuel this args w o :
  heap w !! this = Some o ->
  existsb (Name.eqb (method_name args)) (bindings o) = true ->
  invoke env (S fuel) this args w =
  licenseCheckDecorator env (invoke env fuel) (prototype env fuel) this args w.
Proof.
  intros Ho Hb. simpl. unfold bind at 1, deref. now rewrite Ho, Hb.
Qed.

Lemma decorator_fast_path env lookup method this args w cr w1 :
  get_credits env this false w = (Ret cr, w1) ->
  js_lt (credits_left cr) licenseCheckDecorator_threshold = false ->
  licenseCheckDecorator env lookup method this args w = method this args w1.
Proof.
  intros Hq Hlt. unfold licenseCheckDecorator.
  rewrite (bind_ret _ _ _ _ _ Hq). now rewrite Hlt.
Qed.

(** C1. When the quota read on the active Session is at or above the
    threshold, the guard writes nothing to the Credential Store and creates
    no Session: it is the operation applied to the original Session, in the
    world left by the quota query, and its result is the result of that
    application.  For the five methods of the class the whole guarded call
    leaves the writes of the store as they were. *)
Theorem guard_sufficient_quota env lookup method this args w cr w1 q :
  get_credits env this false w = (Ret cr, w1) ->
  credits_left cr = Some q ->
  licenseCheckDecorator_threshold <= q ->
  licenseCheckDecorator env lookup method this args w = method this args w1
  /\ store_writes (trace w1) = store_writes (trace w)
  /\ instances_created (trace w1) = instances_created (trace w)
  /\ (forall fuel o,
        heap w !! this = Some o ->
        existsb (Name.eqb (method_name args)) (bindings o) = true ->
        invoke env (S fuel) this args w = prototype env fuel this args w1
        /\ store_writes (trace (snd (invoke env (S fuel) this args w)))
           = store_writes (trace w)).
Proof.
  intros Hq Hcr Hge.
  assert (Hlt : js_lt (credits_left cr) licenseCheckDecorator_threshold = false).
  { apply js_lt_ge. rewrite Hcr. simpl. lia. }
  assert (Hw1 : appends upstream_only w w1).
  { apply (respects_run _ _ _ _ _ (respects_get_credits env _ upstream_only_laws this false) Hq). }
  repeat split.
  - now apply decorator_fast_path with cr.
  - now apply appends_upstream_store_writes.
  - now apply appends_upstream_instances.
  - rewrite (invoke_bound env fuel this args w o) by assumption.
    now apply decorator_fast_path with cr.
  - rewrite (invoke_bound env fuel this args w o) by assumption.
    rewrite (decorator_fast_path env _ _ this args w cr w1) by assumption.
    rewrite (appends_upstream_store_writes w1).
    + now apply appends_upstream_store_writes.
    + apply (respects_prototype env _ upstream_only_laws).
Qed.

Lemma guard_sufficient_quota_witness :
  let w := loaded env_plenty in
  let w1 := snd (get_credits env_plenty 0%nat false w) in
  licenseCheckDecorator env_plenty (invoke env_plenty 2) (prototype env_plenty 2)
    0%nat (Concatenate "clip") w
  = prototype env_plenty 2 0%nat (Concatenate "clip") w1
  /\ store_writes (trace w1) = store_writes (trace w)
  /\ instances_created (trace w1) = instances_created (trace w).
Proof.
  intros w w1.
  destruct (guard_sufficient_quota env_plenty (invoke env_plenty 2)
              (prototype env_plenty 2) 0%nat (Concatenate "clip") w
              {| credits_left := Some 50; credits_period := Some "month";
                 credits_monthly_limit := Some 500; credits_monthly_usage := Some 0 |}
              w1 50) as (H1 & H2 & H3 & _).
  - vm_compute; reflexivity.
  - reflexivity.
  - unfold licenseCheckDecorator_threshold. lia.
  - exact (conj H1 (conj H2 H3)).
Defined.

(** ** The candidate loop *)

Lemma not_a_write_laws : laws (appends not_a_write).
Proof. apply appends_laws; intros; exact I. Qed.

Lemma appends_refl P w : appends P w w.
Proof. exists []. rewrite app_nil_r. split; [reflexivity | constructor]. Qed.

Lemma appends_trans P w1 w2 w3 : appends P w1 w2 -> appends P w2 w3 -> appends P w1 w3.
Proof.
  intros (e1 & E1 & F1) (e2 & E2 & F2).
  exists (e1 ++ e2). split; [now rewrite E2, E1, app_assoc | now apply Forall_app].
Qed.

Lemma appends_upstream_not_a_write w w' :
  appends upstream_only w w' -> appends not_a_write w w'.
Proof.
  intros (evs & E & F). exists evs. split; [exact E | now apply upstream_is_not_a_write].
Qed.

Lemma sheet_call_returns {A} env ev (oracle : nat -> http A) w a w' :
  sheet_call env ev oracle w = (Ret a, w') ->
  oracle (tick w) = Response a
  /\ trace w' = trace w ++ [ev]
  /\ activeSunoLicense w' = activeSunoLicense w
  /\ sunoApi w' = sunoApi w.
Proof.
  unfold sheet_call. destruct (oracle (tick w)) as [msg | a']; intros H; inversion H.
  now subst.
Qed.

Lemma init_returns env this cookie w r w' :
  init env this cookie w = (r, w') ->
  appends upstream_only w w' /\ activeSunoLicense w' = activeSunoLicense w.
Proof.
  intros H. split.
  - apply (respects_run _ _ _ _ _
             (respects_init env _ upstream_only_laws this cookie
                (fun h w0 => appends_refl _ (with_heap h w0))) H).
  - apply (respects_run _ _ _ _ _
             (respects_init env _ same_license_laws this cookie
                (fun h w0 => eq_refl)) H).
Qed.

Lemma newSunoApi_returns env cookie w api w' :
  newSunoApi env cookie w = (Ret api, w') ->
  appends not_a_write w w'
  /\ instances_created (trace w') = S (instances_created (trace w))
  /\ (activeSunoLicense w <> None -> activeSunoLicense w' <> None).
Proof.
  unfold newSunoApi. intros H.
  apply bind_returns in H as (cookie' & wa & Ha & H).
  apply bind_returns in H as (api' & wb & Hb & H).
  apply bind_returns in H as (r & wc & Hc & H).
  inversion H; subst; clear H.
  assert (A : appends not_a_write w wa
              /\ instances_created (trace wa) = instances_created (trace w)
              /\ (activeSunoLicense w <> None -> activeSunoLicense wa <> None)).
  { destruct (negb (truthy (Some cookie))).
    - apply bind_returns in Ha as (lic & w1 & H1 & Ha).
      apply sheet_call_returns in H1 as (_ & T1 & _ & _).
      destruct lic as [l |]; [| discriminate].
      inversion Ha; subst; clear Ha. repeat split.
      + exists [EvSheetGetActive]. split; [exact T1 | now repeat constructor].
      + simpl. rewrite T1, instances_created_app. unfold instances_created. simpl. lia.
      + discriminate.
    - inversion Ha; subst. repeat split; auto using appends_refl. }
  destruct A as (A1 & A2 & A3).
  inversion Hb; subst; clear Hb.
  apply init_returns in Hc as (C1 & C2).
  repeat split.
  - eapply appends_trans; [exact A1 |].
    eapply appends_trans; [| apply appends_upstream_not_a_write; exact C1].
    exists [EvNew]. split; [reflexivity | now repeat constructor].
  - rewrite (appends_upstream_instances _ _ C1). simpl.
    rewrite instances_created_app, A2. unfold instances_created. simpl. lia.
  - intros Hw. rewrite C2. simpl. now apply A3.
Qed.

Lemma probe_returns env lic w api cr w' :
  probe env lic w = (Ret (api, cr), w') ->
  appends not_a_write w w'
  /\ instances_created (trace w') = S (instances_created (trace w))
  /\ (activeSunoLicense w <> None -> activeSunoLicense w' <> None)
  /\ sunoApi w' = Some api.
Proof.
  unfold probe. intros H.
  apply bind_returns in H as (api' & wa & Ha & H).
  apply bind_returns in H as ([] & wb & Hb & H).
  apply bind_returns in H as (cr' & wc & Hc & H).
  inversion H; subst; clear H. inversion Hb; subst; clear Hb.
  apply newSunoApi_returns in Ha as (A1 & A2 & A3).
  pose proof (respects_run _ _ _ _ _
                (respects_get_credits env _ upstream_only_laws api false) Hc) as C1.
  pose proof (respects_run _ _ _ _ _
                (respects_get_credits env _ same_license_laws api false) Hc) as C2.
  assert (C3 : sunoApi w' = Some api).
  { apply (respects_run _ _ _ _ _
             (respects_get_credits env _ same_sunoApi_laws api false) Hc). }
  repeat split.
  - eapply appends_trans; [exact A1 |]. apply appends_upstream_not_a_write. exact C1.
  - rewrite (appends_upstream_instances _ _ C1). simpl. exact A2.
  - intros Hw. rewrite C2. simpl. now apply A3.
  - exact C3.
Qed.

Lemma scan_cons env lookup args lic rest w :
  scan env lookup args (lic :: rest) w =
  match probe env lic w with
  | (Ret (api, cr), w') =>
      if js_ge (credits_left cr) licenseCheckDecorator_threshold then
        (modify_world (with_activeSunoLicense (Some lic)) ;;;
         sheet_call env (EvSheetSetActive (account lic) (licenseKey lic))
           (fun n => setSunoActiveLicense env n (account lic) (licenseKey lic)) ;;;
         v <- lookup api args ;;
         ret (Some v)) w'
      else scan env lookup args rest w'
  | (Throw e, w') => (Throw e, w')
  | (Diverge, w') => (Diverge, w')
  end.
Proof.
  simpl. unfold probe, bind.
  destruct (newSunoApi env (licenseKey lic) w) as [[api | e |] w1]; try reflexivity.
  simpl.
  destruct (get_credits env api false (with_sunoApi api w1)) as [[cr | e |] w2];
    try reflexivity.
  unfold ret. now destruct (js_ge _ _).
Qed.

Lemma rejected_frame env pre : forall w w',
  rejected env pre w = Some w' ->
  appends not_a_write w w'
  /\ instances_created (trace w') = (instances_created (trace w) + length pre)%nat
  /\ (activeSunoLicense w <> None -> activeSunoLicense w' <> None).
Proof.
  induction pre as [| lic rest IH]; simpl; intros w w' H.
  - inversion H; subst. repeat split; auto using appends_refl.
  - destruct (probe env lic w) as [[[api cr] | e |] w1] eqn:Hp; try discriminate.
    destruct (js_ge _ _); [discriminate |].
    apply probe_returns in Hp as (P1 & P2 & P3 & _).
    apply IH in H as (R1 & R2 & R3).
    repeat split.
    + eapply appends_trans; eassumption.
    + rewrite R2, P2. lia.
    + auto.
Qed.

Lemma scan_rejected env lookup args pre rest : forall w w',
  rejected env pre w = Some w' ->
  scan env lookup args (pre ++ rest) w = scan env lookup args rest w'.
Proof.
  induction pre as [| lic pre IH]; intros w w' H.
  - now inversion H.
  - change ((lic :: pre) ++ rest) with (lic :: (pre ++ rest)).
    rewrite scan_cons. simpl in H.
    destruct (probe env lic w) as [[[api cr] | e |] w1]; try discriminate.
    destruct (js_ge _ _); [discriminate |]. now apply IH.
Qed.








(** C2 (amended).  When the quota of the active Session reads below the
    threshold, the sheet lists [pre ++ lic :: post], every candidate of
    [pre], examined in turn, initialises and answers its quota query with a
    reading that is not at or above the threshold, [lic] initialises and
    reads at or above it, and the sheet accepts the write, then the guard
    persists [lic] as the active pointer: that write is the one write and
    the last event before the operation is looked up by name on the new
    Session, one Session was created per candidate of [pre] and one for
    [lic], none for [post], and the result of the guard is the result of
    that invocation. *)
Theorem guard_promotes_first_viable
    env lookup method this args w cr w1 pre lic post w2 w3 api cr' w4 w5 :
  get_credits env this false w = (Ret cr, w1) ->
  js_lt (credits_left cr) licenseCheckDecorator_threshold = true ->
  sheet_call env EvSheetKeys (getSunoLicenseKeys env) w1
  = (Ret (pre ++ lic :: post), w2) ->
  rejected env pre w2 = Some w3 ->
  probe env lic w3 = (Ret (api, cr'), w4) ->
  js_ge (credits_left cr') licenseCheckDecorator_threshold = true ->
  sheet_call env (EvSheetSetActive (account lic) (licenseKey lic))
    (fun n => setSunoActiveLicense env n (account lic) (licenseKey lic))
    (with_activeSunoLicense (Some lic) w4) = (Ret tt, w5) ->
  licenseCheckDecorator env lookup method this args w = lookup api args w5
  /\ store_writes (trace w5)
     = store_writes (trace w) ++ [(account lic, licenseKey lic)]
  /\ trace w5 = trace w4 ++ [EvSheetSetActive (account lic) (licenseKey lic)]
  /\ instances_created (trace w5)
     = (instances_created (trace w) + length pre + 1)%nat
  /\ activeSunoLicense w5 = Some lic
  /\ sunoApi w5 = Some api.
Proof.
  intros Hq Hlt Hkeys Hrej Hprobe Hge Hset.
  pose proof (respects_run _ _ _ _ _
                (respects_get_credits env _ upstream_only_laws this false) Hq) as Q1.
  pose proof (sheet_call_returns _ _ _ _ _ _ Hkeys) as (_ & K1 & _ & _).
  pose proof (rejected_frame _ _ _ _ Hrej) as (R1 & R2 & _).
  pose proof (probe_returns _ _ _ _ _ _ Hprobe) as (P1 & P2 & _ & P4).
  pose proof (sheet_call_returns _ _ _ _ _ _ Hset) as (_ & S1 & S2 & S3).
  simpl in S1, S2, S3.
  assert (W4 : store_writes (trace w4) = store_writes (trace w)).
  { rewrite (appends_store_writes _ _ P1), (appends_store_writes _ _ R1), K1,
      store_writes_app. simpl. rewrite app_nil_r.
    now apply appends_upstream_store_writes. }
  repeat split.
  - unfold licenseCheckDecorator.
    rewrite (bind_ret _ _ _ _ _ Hq), Hlt, (bind_ret _ _ _ _ _ Hkeys).
    assert (Hscan : scan env lookup args (pre ++ lic :: post) w2
                    = bind (lookup api args) (fun v => ret (Some v)) w5).
    { rewrite (scan_rejected _ _ _ _ _ _ _ Hrej), scan_cons, Hprobe, Hge.
      rewrite (bind_ret (modify_world _) _ w4 tt _ eq_refl).
      now rewrite (bind_ret _ _ _ _ _ Hset). }
    unfold bind at 1. rewrite Hscan. unfold bind.
    now destruct (lookup api args w5) as [[v | e |] w6].
  - rewrite S1, store_writes_app, W4. reflexivity.
  - exact S1.
  - rewrite S1, instances_created_app, P2, R2, K1, instances_created_app,
      (appends_upstream_instances _ _ Q1).
    unfold instances_created. simpl. lia.
  - exact S2.
  - now rewrite S3.
Qed.

Lemma guard_promotes_first_viable_witness :
  let env := env_failover in
  let w := loaded env in
  let w1 := snd (get_credits env 0%nat false w) in
  let w2 := snd (sheet_call env EvSheetKeys (getSunoLicenseKeys env) w1) in
  let w3 := default w2 (rejected env [lic_a] w2) in
  let w4 := snd (probe env lic_b w3) in
  let w5 := snd (sheet_call env (EvSheetSetActive "b" "cookie-b")
                   (fun n => setSunoActiveLicense env n "b" "cookie-b")
                   (with_activeSunoLicense (Some lic_b) w4)) in
  licenseCheckDecorator env (invoke env 2) (prototype env 2) 0%nat (Concatenate "clip") w
  = invoke env 2 2%nat (Concatenate "clip") w5
  /\ store_writes (trace w5) = store_writes (trace w) ++ [("b", "cookie-b")]
  /\ instances_created (trace w5) = (instances_created (trace w) + 1 + 1)%nat.
Proof.
  intros env w w1 w2 w3 w4 w5.
  destruct (guard_promotes_first_viable env (invoke env 2) (prototype env 2) 0%nat
              (Concatenate "clip") w
              {| credits_left := Some 5; credits_period := Some "month";
                 credits_monthly_limit := Some 500; credits_monthly_usage := Some 0 |}
              w1 [lic_a] lic_b [lic_c] w2 w3 2%nat
              {| credits_left := Some 50; credits_period := Some "month";
                 credits_monthly_limit := Some 500; credits_monthly_usage := Some 0 |}
              w4 w5) as (H1 & H2 & _ & H4 & _).
  - vm_compute; reflexivity.
  - vm_compute; reflexivity.
  - vm_compute; reflexivity.
  - vm_compute; reflexivity.
  - vm_compute; reflexivity.
  - vm_compute; reflexivity.
  - vm_compute; reflexivity.
  - exact (conj H1 (conj H2 H4)).
Defined.

(** C2 as stated fails: the quota of the active Session reads 5 and b, the
    second candidate, always reads 50, but the cookie of the first candidate
    has expired; its initialisation throws, the guard ends there and
    persists nothing. *)
Lemma guard_promotes_first_viable_counterexample :
  ~ (forall env fuel this args w cr w1 pre lic post w2,
       get_credits env this false w = (Ret cr, w1) ->
       js_lt (credits_left cr) licenseCheckDecorator_threshold = true ->
       sheet_call env EvSheetKeys (getSunoLicenseKeys env) w1
       = (Ret (pre ++ lic :: post), w2) ->
       (forall l n h b,
           In l pre -> Cookie h = licenseKey l ->
           billing_info env n h = Response b ->
           js_ge (total_credits_left b) licenseCheckDecorator_threshold = false) ->
       (forall n h,
           Cookie h = licenseKey lic ->
           exists b, billing_info env n h = Response b
                     /\ js_ge (total_credits_left b) licenseCheckDecorator_threshold = true) ->
       In (account lic, licenseKey lic)
          (store_writes
             (trace (snd (licenseCheckDecorator env (invoke env fuel) (prototype env fuel)
                            this args w))))).
Proof.
  intros claim.
  refine (_ (claim env_expired_first 2%nat 0%nat (Concatenate "clip")
               (loaded env_expired_first)
               {| credits_left := Some 5; credits_period := Some "month";
                  credits_monthly_limit := Some 500; credits_monthly_usage := Some 0 |}
               (snd (get_credits env_expired_first 0%nat false (loaded env_expired_first)))
               [lic_expired] lic_b []
               (snd (sheet_call env_expired_first EvSheetKeys
                       (getSunoLicenseKeys env_expired_first)
                       (snd (get_credits env_expired_first 0%nat false
                               (loaded env_expired_first)))))
               _ _ _ _ _)).
  - intros H. vm_compute in H. exact H.
  - vm_compute; reflexivity.
  - vm_compute; reflexivity.
  - vm_compute; reflexivity.
  - intros l n h b [<- | []] Hc Hb. simpl in Hb, Hc.
    inversion Hb; subst; clear Hb. simpl. rewrite Hc. reflexivity.
  - intros n h Hc. simpl in Hc. eexists. split; [reflexivity |].
    simpl. rewrite Hc. reflexivity.
Qed.

(** C4 fails on the code.  The operation is looked up by name on the
    promoted Session, where [setupBindings] has installed the guarded
    method: the guard runs again.  Here a is promoted, its quota then reads
    3, the second run of the guard promotes b, and one guarded call has
    written the active pointer twice. *)
Theorem redispatch_promotes_again :
  let r := invoke env_flapping 4 0%nat (Concatenate "clip") (loaded env_flapping) in
  fst r = Ret (VData "concatenated")
  /\ store_writes (trace (snd r)) = [("a", "cookie-a"); ("b", "cookie-b")]
  /\ store_writes (trace (loaded env_flapping)) = [].
Proof. vm_compute. repeat split. Qed.

(** ** The two thresholds *)

Lemma change_Account_fast_path {A} env this (apiCall : ref -> M A) w cr w1 :
  get_credits env this false w = (Ret cr, w1) ->
  js_lt (credits_left cr) TS.change_Account_threshold = false ->
  TS.change_Account env this apiCall w = apiCall this w1.
Proof.
  intros Hq Hlt. unfold TS.change_Account.
  rewrite (bind_ret _ _ _ _ _ Hq). now rewrite Hlt.
Qed.

Lemma change_Account_switches {A} env this (apiCall : ref -> M A) w cr w1 :
  get_credits env this false w = (Ret cr, w1) ->
  js_lt (credits_left cr) TS.change_Account_threshold = true ->
  TS.change_Account env this apiCall w
  = (api <- new_SunoApi ;;
     TS.init env api TS.new_Cookie ;;;
     get_credits env api false ;;;
     apiCall api) w1.
Proof.
  intros Hq Hlt. unfold TS.change_Account.
  rewrite (bind_ret _ _ _ _ _ Hq). now rewrite Hlt.
Qed.

(** C5 (amended).  Both thresholds are literals, 10 in the guard of the
    generation operations (SunoApi.js) and 44 in the guard of the feed
    (SunoApi.ts): the threshold of the feed is the higher one.  With a quota
    reading between the two the generation guard applies the operation to
    the original Session, while the feed guard creates a Session for its
    replacement cookie and fetches the feed there. *)
Theorem feed_threshold_is_the_higher
    env lookup method (apiCall : ref -> M (list AudioInfo)) this args w cr w1 q :
  get_credits env this false w = (Ret cr, w1) ->
  credits_left cr = Some q ->
  licenseCheckDecorator_threshold <= q < TS.change_Account_threshold ->
  licenseCheckDecorator_threshold = 10
  /\ TS.change_Account_threshold = 44
  /\ licenseCheckDecorator_threshold < TS.change_Account_threshold
  /\ licenseCheckDecorator env lookup method this args w = method this args w1
  /\ TS.change_Account env this apiCall w
     = (api <- new_SunoApi ;;
        TS.init env api TS.new_Cookie ;;;
        get_credits env api false ;;;
        apiCall api) w1.
Proof.
  intros Hq Hcr [Hlo Hhi]. repeat split.
  - apply decorator_fast_path with cr; [exact Hq |].
    rewrite Hcr. simpl. lia.
  - apply change_Account_switches with cr; [exact Hq |].
    rewrite Hcr. simpl. lia.
Qed.

Lemma feed_threshold_is_the_higher_witness :
  let env := env_between in
  let w := loaded env in
  let w1 := snd (get_credits env 0%nat false w) in
  licenseCheckDecorator env (invoke env 2) (prototype env 2) 0%nat (Concatenate "clip") w
  = prototype env 2 0%nat (Concatenate "clip") w1
  /\ instances_created
       (trace (snd (TS.get env 0%nat (Some ["job-1"]) w)))
     = S (instances_created (trace w)).
Proof.
  intros env w w1.
  destruct (feed_threshold_is_the_higher env (invoke env 2) (prototype env 2)
              (fun context =>
                 keepAlive env context false ;;;
                 audios <- request env context Feed (Some 3000)
                             (fun n h => feed env n h (Some ["job-1"])) ;;
                 ret (List.map audio_of_feed audios))
              0%nat (Concatenate "clip") w
              {| credits_left := Some 20; credits_period := Some "month";
                 credits_monthly_limit := Some 500; credits_monthly_usage := Some 0 |}
              w1 20) as (_ & _ & _ & H1 & H2).
  - vm_compute; reflexivity.
  - reflexivity.
  - unfold licenseCheckDecorator_threshold, TS.change_Account_threshold. lia.
  - split; [exact H1 |].
    unfold TS.get. rewrite H2. vm_compute. reflexivity.
Defined.

(** C5 as stated fails: the threshold of the feed is not below that of the
    generation operations, and a reading of 20 makes the feed guard switch
    accounts where the generation guard does not. *)
Lemma feed_threshold_counterexample :
  ~ (TS.change_Account_threshold < licenseCheckDecorator_threshold)
  /\ js_lt (Some 20) TS.change_Account_threshold = true
  /\ js_lt (Some 20) licenseCheckDecorator_threshold = false.
Proof.
  unfold TS.change_Account_threshold, licenseCheckDecorator_threshold.
  repeat split. lia.
Qed.

(** ** What [setupBindings] installs *)

Lemma init_installs_bindings env this cookie w0 r w :
  init env this cookie w0 = (Ret r, w) ->
  r = this
  /\ exists o, heap w !! this = Some o
               /\ bindings o = [Name.generate; Name.concatenate; Name.custom_generate;
                                Name.generateLyrics; Name.extendAudio].
Proof.
  unfold init. intros H.
  apply bind_returns in H as ([] & wa & Ha & H).
  assert (Hrest : same_bindings wa w /\ r = this).
  { split.
    - refine (respects_run same_bindings _ _ _ _ _ H).
      apply (respects_bind _ same_bindings_laws);
        [apply (respects_update _ same_bindings_laws); reflexivity | intros _].
      apply (respects_bind _ same_bindings_laws);
        [apply (respects_getClerkLatestVersion env _ same_bindings_laws) | intros _].
      apply (respects_bind _ same_bindings_laws);
        [apply (respects_getAuthToken env _ same_bindings_laws) | intros _].
      apply (respects_bind _ same_bindings_laws);
        [apply (respects_keepAlive env _ same_bindings_laws) | intros _].
      apply (respects_ret _ same_bindings_laws).
    - apply bind_returns in H as ([] & w1 & _ & H).
      apply bind_returns in H as ([] & w2 & _ & H).
      apply bind_returns in H as ([] & w3 & _ & H).
      apply bind_returns in H as ([] & w4 & _ & H).
      now inversion H. }
  destruct Hrest as [Hsame ->]. split; [reflexivity |].
  unfold setupBindings, update in Ha.
  destruct (heap w0 !! this) as [o0 |] eqn:Ho; [| discriminate].
  inversion Ha; subst; clear Ha.
  edestruct (Hsame this) as (o' & Ho' & Hb).
  - simpl. apply list_lookup_insert_eq. eapply lookup_lt_Some; eassumption.
  - exists o'. split; [exact Ho' | exact Hb].
Qed.

(** C6 (amended).  [setupBindings] wraps all five generation operations:
    on an instance returned by [init], each of [generate], [concatenate],
    [custom_generate], [generateLyrics] and [extendAudio] is the guard
    around the method of the prototype, so that fetch-lyrics and extend
    begin with a quota query like the others. *)
Theorem every_generation_operation_is_guarded env fuel this cookie args w0 r w :
  init env this cookie w0 = (Ret r, w) ->
  invoke env (S fuel) r args w
  = licenseCheckDecorator env (invoke env fuel) (prototype env fuel) r args w.
Proof.
  intros H. apply init_installs_bindings in H as (-> & o & Ho & Hb).
  apply invoke_bound with o; [exact Ho |].
  rewrite Hb. now destruct args.
Qed.

Lemma every_generation_operation_is_guarded_witness :
  let env := env_plenty in
  let w := snd (init env 0%nat "cookie-main" (snd (new_SunoApi fresh))) in
  invoke env 3 0%nat (GenerateLyrics "a song") w
  = licenseCheckDecorator env (invoke env 2) (prototype env 2) 0%nat
      (GenerateLyrics "a song") w.
Proof.
  intros env w.
  apply (every_generation_operation_is_guarded env 2 0%nat "cookie-main"
           (GenerateLyrics "a song") (snd (new_SunoApi fresh)) 0%nat w).
  vm_compute. reflexivity.
Defined.

(** C6 as stated fails: on an initialised instance [extendAudio] and
    [generateLyrics] query the quota before anything else. *)
Lemma unguarded_operations_counterexample :
  ~ (forall env fuel this cookie args w0 w,
       init env this cookie w0 = (Ret this, w) ->
       method_name args = Name.generateLyrics \/ method_name args = Name.extendAudio ->
       quota_checks (trace (snd (invoke env fuel this args w))) = quota_checks (trace w)).
Proof.
  intros claim.
  refine (_ (claim env_plenty 3%nat 0%nat "cookie-main"
               (ExtendAudio "clip" "more" "0" "" "" None)
               (snd (new_SunoApi fresh))
               (snd (init env_plenty 0%nat "cookie-main" (snd (new_SunoApi fresh))))
               _ (or_intror eq_refl))).
  - vm_compute. discriminate.
  - vm_compute. reflexivity.
Qed.

(** ** Initialisation *)

Lemma deref_returns this w o w' :
  deref this w = (Ret o, w') -> w' = w /\ heap w !! this = Some o.
Proof.
  unfold deref. destruct (heap w !! this) as [o' |]; intros H; inversion H. now subst.
Qed.

Lemma update_returns this f w w' :
  update this f w = (Ret tt, w') ->
  exists o, heap w !! this = Some o /\ heap w' !! this = Some (f o).
Proof.
  unfold update. destruct (heap w !! this) as [o |] eqn:Ho; intros H; inversion H.
  exists o. split; [reflexivity |]. simpl.
  apply list_lookup_insert_eq. eapply lookup_lt_Some; eassumption.
Qed.

Lemma request_heap {A} env this e timeout (oracle : nat -> headers -> http A) w r w' :
  request env this e timeout oracle w = (r, w') -> heap w' = heap w.
Proof.
  unfold request, bind, deref.
  destruct (heap w !! this) as [o |]; [| intros H; now inversion H].
  destruct (client o) as [cookie |]; [| intros H; now inversion H].
  destruct (match timeout with Some t => t <? _ | None => false end);
    [intros H; now inversion H |].
  destruct (oracle (tick w) (interceptor o cookie)); intros H; now inversion H.
Qed.

(** What [init] does establish: when it returns, the client, the version of
    Clerk and the session id of the instance are set. *)
Lemma init_establishes_session env this cookie w0 r w :
  init env this cookie w0 = (Ret r, w) ->
  exists o, heap w !! this = Some o
            /\ client o = Some cookie
            /\ truthy (clerkVersion o) = true
            /\ truthy (sid o) = true.
Proof.
  unfold init. intros H.
  apply bind_returns in H as ([] & w1 & Ha & H).
  apply bind_returns in H as ([] & w2 & Hb & H).
  apply bind_returns in H as ([] & w3 & Hc & H).
  apply bind_returns in H as ([] & w4 & Hd & H).
  apply bind_returns in H as ([] & w5 & He & H).
  inversion H; subst; clear H.
  apply update_returns in Ha as (o0 & _ & H1).
  apply update_returns in Hb as (o1 & H1' & H2).
  rewrite H1 in H1'. inversion H1'; subst o1; clear H1'. cbn [client] in H2.
  (* the version *)
  unfold getClerkLatestVersion in Hc.
  apply bind_returns in Hc as (body & wv & Hreq & Hc).
  apply request_heap in Hreq.
  destruct body as [| | latest]; try discriminate.
  destruct (truthy latest) eqn:Tl; [| discriminate]. cbn [negb] in Hc.
  apply update_returns in Hc as (o2 & H2' & H3).
  rewrite Hreq, H2 in H2'. inversion H2'; subst o2; clear H2'.
  (* the session id *)
  unfold getAuthToken in Hd.
  apply bind_returns in Hd as (o3 & ws & Hderef & Hd).
  apply deref_returns in Hderef as [-> _].
  apply bind_returns in Hd as (session & wt & Hreq' & Hd).
  apply request_heap in Hreq'.
  destruct (truthy session) eqn:Ts; [| discriminate]. cbn [negb] in Hd.
  apply update_returns in Hd as (o4 & H3' & H4).
  rewrite Hreq', H3 in H3'. inversion H3'; subst o4; clear H3'.
  (* the token *)
  unfold keepAlive in He.
  apply bind_returns in He as (o5 & wk & Hderef & He).
  apply deref_returns in Hderef as [-> _].
  destruct (negb (truthy (sid o5))); [discriminate |].
  apply bind_returns in He as (jwt & wj & Hreq'' & He).
  apply request_heap in Hreq''.
  apply bind_returns in He as ([] & wz & Hret & He).
  inversion Hret; subst wz; clear Hret.
  apply update_returns in He as (o6 & H4' & H5).
  rewrite Hreq'', H4 in H4'. inversion H4'; subst o6; clear H4'.
  eexists. split; [exact H5 |]. cbn [client clerkVersion sid]. auto.
Qed.

(** C7 fails on the code.  [getClerkLatestVersion] and [getAuthToken] throw
    when the field they need is missing; [keepAlive] stores
    [renewResponse.data.jwt] without looking at it.  When the token endpoint
    answers without a [jwt] field, [init] returns a Session with a session
    id and an undefined bearer token. *)
Theorem init_returns_without_token :
  let r := (api <- new_SunoApi ;; init env_no_jwt api "cookie-main") fresh in
  fst r = Ret 0%nat
  /\ heap (snd r) !! 0%nat
     = Some {| client := Some "cookie-main"; clerkVersion := Some "5.0";
               sid := Some "sess_1"; currentToken := None;
               bindings := [Name.generate; Name.concatenate; Name.custom_generate;
                            Name.generateLyrics; Name.extendAudio] |}.
Proof. vm_compute. split; reflexivity. Qed.

(** ** Time *)

Section Timing.

Variable env : environment.








Lemma sleep_duration x y w :
  0 <= x -> match y with Some y' => 0 <= y' | None => True end ->
  exists ms,
    sleep env x y w = (Ret tt, advance ms (emit (EvSleep ms)
                                (if match y with Some y' => negb (y' =? x) | None => false end
                                 then consult w else w)))
    /\ match y with
       | Some y' => Z.min x y' * 1000 <= ms <= Z.max x y' * 1000
       | None => ms = x * 1000
       end.
Proof.
  intros Hx Hy. unfold sleep. destruct y as [y |].
  - destruct (negb (y =? x)) eqn:E.
    + eexists. split; [reflexivity |].
      pose proof (Z.mod_pos_bound (Z.of_nat (random env (tick w)))
                    (Z.max x y - Z.min x y + 1)). lia.
    + exists (x * 1000). split; [reflexivity |].
      apply negb_false_iff, Z.eqb_eq in E. lia.
  - exists (x * 1000). split; reflexivity.
Qed.






Lemma wait_loop_S fuel this songIds startTime lastResponse w :
  wait_loop env (S fuel) this songIds startTime lastResponse w =
  if now w - startTime <? 100000 then
    (response <- get env this (Some songIds) ;;
     if allCompleted response || allError response then ret response
     else
       sleep env 3 (Some 6) ;;;
       keepAlive env this true ;;;
       wait_loop env fuel this songIds startTime response) w
  else (Ret lastResponse, w).
Proof.
  cbn [wait_loop]. unfold bind at 1. unfold date_now, read_world.
  now destruct (now w - startTime <? 100000).
Qed.


(** At most [L] ms for a call of the upstream. *)
Variable L : Z.
Hypothesis latency_bound : forall n e, Z.of_N (latency env n e) <= L.












End Timing.

(** ** The job poller *)

Lemma awaitCompletion_enters env fuel this songIds w :
  awaitCompletion env fuel this songIds w
  = wait_loop env fuel this songIds (now w) [] (advance 5000 (emit (EvSleep 5000) w)).
Proof. reflexivity. Qed.

Lemma appends_bind {A B} P (m : M A) (k : A -> M B) :
  (forall w, appends P w (snd (m w))) ->
  (forall a w, appends P w (snd (k a w))) ->
  forall w, appends P w (snd (bind m k w)).
Proof.
  intros Hm Hk w. unfold bind. specialize (Hm w).
  destruct (m w) as [[a | e |] w1]; simpl in *; try exact Hm.
  eapply appends_trans; [exact Hm | apply Hk].
Qed.

Lemma appends_same_trace P w w' : trace w' = trace w -> appends P w w'.
Proof. intros E. exists []. rewrite E, app_nil_r. split; [reflexivity | constructor]. Qed.

(** A renewal sends its request to the token endpoint and sleeps: it
    fetches nothing. *)
Lemma keepAlive_fetches_nothing env this isWait w :
  appends not_a_fetch w (snd (keepAlive env this isWait w)).
Proof.
  revert w. unfold keepAlive.
  apply appends_bind.
  { intros w. apply appends_same_trace. unfold deref. now destruct (heap w !! this). }
  intros o. destruct (negb (truthy (sid o))); [intros w; apply appends_refl |].
  apply appends_bind.
  { intros w.
    destruct (request_trace env this ClerkTokens None
                (fun n h => clerk_tokens env n h (sid o) (clerkVersion o)) w)
      as [E | [cookie E]].
    - now apply appends_same_trace.
    - exists [EvRequest cookie ClerkTokens]. split; [exact E | now repeat constructor]. }
  intros jwt. apply appends_bind.
  { intros w. destruct isWait; [| apply appends_refl].
    destruct (sleep_duration env 1 (Some 2) w) as (ms & E & _); [lia | simpl; lia |].
    rewrite E. exists [EvSleep ms]. split; [| now repeat constructor].
    cbn [snd advance emit trace]. now destruct (negb (2 =? 1)). }
  intros _ w. apply appends_same_trace. unfold update. now destruct (heap w !! this).
Qed.

(** What the loop returns: the snapshot it was given when the deadline has
    passed on entry, or a terminal snapshot straight from its fetch, or the
    snapshot of its last fetch once the deadline has passed. *)
Lemma wait_loop_returns env this songIds startTime : forall fuel w lastResponse l w',
  wait_loop env fuel this songIds startTime lastResponse w = (Ret l, w') ->
  (l = lastResponse /\ w' = w /\ 100000 <= now w - startTime)
  \/ (exists wg, get env this (Some songIds) wg = (Ret l, w') /\ terminal l = true)
  \/ (exists wg wg',
        get env this (Some songIds) wg = (Ret l, wg')
        /\ terminal l = false
        /\ appends not_a_fetch wg' w'
        /\ 100000 <= now w' - startTime).
Proof.
  induction fuel as [| fuel IH]; intros w lastResponse l w' H; [discriminate |].
  rewrite wait_loop_S in H.
  destruct (now w - startTime <? 100000) eqn:E.
  - apply bind_returns in H as (response & wg & Hg & H).
    fold (terminal response) in H.
    destruct (terminal response) eqn:T.
    + inversion H; subst. right. left. now exists w.
    + apply bind_returns in H as ([] & ws & Hs & H).
      apply bind_returns in H as ([] & wk & Hk & H).
      assert (Hsleep : appends not_a_fetch wg ws).
      { destruct (sleep_duration env 3 (Some 6) wg) as (ms & Es & _);
          [lia | simpl; lia |].
        rewrite Es in Hs. inversion Hs; subst.
        exists [EvSleep ms]. split; [reflexivity | now repeat constructor]. }
      assert (Hquiet : appends not_a_fetch wg wk).
      { apply appends_trans with ws; [exact Hsleep |].
        pose proof (keepAlive_fetches_nothing env this true ws) as K.
        now rewrite Hk in K. }
      apply IH in H as [(-> & -> & Hlate) | [H | (wg1 & wg2 & H1 & H2 & H3 & H4)]].
      * right. right. exists w, wg. auto.
      * right. left. exact H.
      * right. right. exists wg1, wg2. auto.
  - inversion H; subst. left. apply Z.ltb_ge in E. auto.
Qed.





(** The snapshot returned at the deadline is the last one fetched, not an
    earlier one: the second job streams at the later polls only. *)
Example awaitCompletion_returns_the_last_snapshot :
  let env := env_late_change in
  let w := loaded env in
  fst (get env 0%nat (Some ["job-1"; "job-2"]) (advance 5000 (emit (EvSleep 5000) w)))
  = Ret [audio_of_feed queued_clip; audio_of_feed queued_clip]
  /\ fst (awaitCompletion env 30 0%nat ["job-1"; "job-2"] w)
     = Ret [audio_of_feed queued_clip; audio_of_feed streaming_clip].
Proof. vm_compute. split; reflexivity. Qed.

(** Even when the upstream answers at once the wait can take 107 seconds:
    a poll that starts 99 seconds in is followed by pauses of 6 and 2
    seconds. *)
Example awaitCompletion_unlucky_draws :
  let r := awaitCompletion env_unlucky 30 0%nat ["job-1"] (loaded env_unlucky) in
  is_ret (fst r) = true /\ now (snd r) - now (loaded env_unlucky) = 107000.
Proof. vm_compute. split; reflexivity. Qed.

(** C10 (amended).  When the first status fetch answers with an empty list,
    both tests of the loop hold vacuously and the wait returns the empty
    list straight after that fetch, 5 seconds and one fetch after it was
    entered.  In particular a submission accepted with no clips returns the
    empty list at once if the feed, asked for no ids, lists nothing. *)
Theorem awaitCompletion_empty_fetch
    env fuel this prompt isCustom tags title make_instrumental model negative_tags
    clips w wa wb wc :
  keepAlive env this false w = (Ret tt, wa) ->
  request env this GenerateV2 (Some 10000)
    (fun n h => generate_v2 env n h
       (generateSongs_payload prompt isCustom tags title make_instrumental model
          negative_tags)) wa
  = (Ret (200, clips), wb) ->
  get env this (Some (List.map clip_id clips)) (advance 5000 (emit (EvSleep 5000) wb))
  = (Ret [], wc) ->
  awaitCompletion env (S fuel) this (List.map clip_id clips) wb = (Ret [], wc)
  /\ generateSongs env (S fuel) this prompt isCustom tags title make_instrumental model
       true negative_tags w
     = (Ret [], wc).
Proof.
  intros Hk Hpost Hget.
  assert (Hwait : awaitCompletion env (S fuel) this (List.map clip_id clips) wb
                  = (Ret [], wc)).
  { rewrite awaitCompletion_enters, wait_loop_S.
    replace (now (advance 5000 (emit (EvSleep 5000) wb)) - now wb <? 100000) with true
      by (simpl; symmetry; apply Z.ltb_lt; lia).
    now rewrite (bind_ret _ _ _ _ _ Hget). }
  split; [exact Hwait |].
  unfold generateSongs. rewrite (bind_ret _ _ _ _ _ Hk). cbv zeta.
  rewrite (bind_ret _ _ _ _ _ Hpost). exact Hwait.
Qed.

Lemma awaitCompletion_empty_fetch_witness :
  let env := env_empty_feed in
  let w := loaded env in
  let wa := snd (keepAlive env 0%nat false w) in
  let wb := snd (request env 0%nat GenerateV2 (Some 10000)
                   (fun n h => generate_v2 env n h
                      (generateSongs_payload "a song" false None None false None None))
                   wa) in
  let wc := snd (get env 0%nat (Some []) (advance 5000 (emit (EvSleep 5000) wb))) in
  generateSongs env 1 0%nat "a song" false None None false None true None w = (Ret [], wc)
  /\ now wc - now w = 5000.
Proof.
  intros env w wa wb wc. split.
  - apply (awaitCompletion_empty_fetch env 0 0%nat "a song" false None None false None
             None [] w wa wb wc); vm_compute; reflexivity.
  - vm_compute. reflexivity.
Defined.

(** C10 as stated fails: the tests of the loop range over what the feed
    answers, not over the submitted ids.  Here the submission is accepted
    with no clips, the feed asked for no ids lists a queued job, and the
    wait polls until the deadline and returns that job. *)
Lemma awaitCompletion_empty_batch_counterexample :
  ~ (forall env fuel this prompt isCustom tags title make_instrumental model
            negative_tags w wa wb,
       (25 <= fuel)%nat ->
       keepAlive env this false w = (Ret tt, wa) ->
       request env this GenerateV2 (Some 10000)
         (fun n h => generate_v2 env n h
            (generateSongs_payload prompt isCustom tags title make_instrumental model
               negative_tags)) wa
       = (Ret (200, []), wb) ->
       fst (generateSongs env fuel this prompt isCustom tags title make_instrumental
              model true negative_tags w) = Ret []).
Proof.
  intros claim.
  refine (_ (claim env_no_clips 30%nat 0%nat "a song" false None None false None None
               (loaded env_no_clips)
               (snd (keepAlive env_no_clips 0%nat false (loaded env_no_clips)))
               (snd (request env_no_clips 0%nat GenerateV2 (Some 10000)
                       (fun n h => generate_v2 env_no_clips n h
                          (generateSongs_payload "a song" false None None false None None))
                       (snd (keepAlive env_no_clips 0%nat false (loaded env_no_clips)))))
               _ _ _)).
  - vm_compute. discriminate.
  - lia.
  - vm_compute. reflexivity.
  - vm_compute. reflexivity.
Qed.

(** ** The lyrics poll *)

Section Lyrics.

Variable env : environment.

Lemma complete_true l : complete l = true <-> lyrics_status l = Some "complete".
Proof.
  unfold complete. destruct (lyrics_status l) as [s |]; [| now split].
  rewrite String.eqb_eq. split; congruence.
Qed.

Lemma lyrics_loop_unfold fuel this generateId lyricsResponse :
  lyrics_loop env fuel this generateId lyricsResponse
  = if complete lyricsResponse then ret lyricsResponse
    else match fuel with
         | O => diverge
         | S fuel' =>
             sleep env 2 None ;;;
             lyricsResponse' <- request env this LyricsFetch None
                                  (fun n h => lyrics_fetch env n h generateId) ;;
             lyrics_loop env fuel' this generateId lyricsResponse'
         end.
Proof. now destruct fuel. Qed.

Lemma lyrics_loop_returns this generateId : forall fuel lyricsResponse w data w',
  lyrics_loop env fuel this generateId lyricsResponse w = (Ret data, w') ->
  lyrics_status data = Some "complete"
  /\ (data = lyricsResponse
      \/ exists n h, lyrics_fetch env n h generateId = Response data).
Proof.
  induction fuel as [| fuel IH]; intros lyricsResponse w data w';
    rewrite lyrics_loop_unfold; destruct (complete lyricsResponse) eqn:E.
  - intros H. inversion H; subst. split; [now apply complete_true | now left].
  - discriminate.
  - intros H. inversion H; subst. split; [now apply complete_true | now left].
  - intros H.
    apply bind_returns in H as ([] & ws & _ & H).
    apply bind_returns in H as (next & wr & Hr & H).
    apply IH in H as [H1 H2]. split; [exact H1 |]. right.
    destruct H2 as [-> | H2]; [| exact H2].
    apply request_returns in Hr as [h Hh]. eauto.
Qed.

Lemma lyrics_loop_trace this generateId : forall fuel lyricsResponse w,
  appends lyrics_poll_event w
    (snd (lyrics_loop env fuel this generateId lyricsResponse w)).
Proof.
  induction fuel as [| fuel IH]; intros lyricsResponse w;
    rewrite lyrics_loop_unfold; destruct (complete lyricsResponse);
    try apply appends_refl.
  unfold bind at 1. unfold sleep. cbn [fst snd].
  set (ws := advance (2 * 1000) (emit (EvSleep (2 * 1000)) w)).
  assert (Hs : appends lyrics_poll_event w ws).
  { exists [EvSleep 2000]. split; [reflexivity | now repeat constructor]. }
  unfold bind at 1.
  assert (Hr : appends lyrics_poll_event ws
                 (snd (request env this LyricsFetch None
                         (fun n h => lyrics_fetch env n h generateId) ws))).
  { destruct (request_trace env this LyricsFetch None
                (fun n h => lyrics_fetch env n h generateId) ws) as [Hr | [cookie Hr]].
    - exists []. split; [now rewrite Hr, app_nil_r | constructor].
    - exists [EvRequest cookie LyricsFetch]. split; [exact Hr | now repeat constructor]. }
  destruct (request env this LyricsFetch None _ ws) as [[next | e |] wr]; cbn [snd] in *.
  - eapply appends_trans; [exact Hs |]. eapply appends_trans; [exact Hr | apply IH].
  - eapply appends_trans; [exact Hs | exact Hr].
  - eapply appends_trans; [exact Hs | exact Hr].
Qed.

Lemma generateLyrics_returns fuel this prompt w v w' :
  generateLyrics env fuel this prompt w = (Ret v, w') ->
  exists data n h generateId,
    v = VLyrics data
    /\ lyrics_fetch env n h generateId = Response data
    /\ lyrics_status data = Some "complete".
Proof.
  unfold generateLyrics. intros H.
  apply bind_returns in H as ([] & w1 & _ & H).
  apply bind_returns in H as (generateId & w2 & _ & H).
  apply bind_returns in H as (first & w3 & Hf & H).
  apply bind_returns in H as (data & w4 & Hl & H).
  inversion H; subst; clear H.
  apply lyrics_loop_returns in Hl as [H1 H2].
  apply request_returns in Hf as [h Hh].
  destruct H2 as [-> | (n & h' & H2)]; eauto 10.
Qed.

(** While no fetch is complete and the upstream keeps answering, the loop
    goes on, two more seconds at every turn. *)
Lemma lyrics_loop_goes_on this generateId o cookie :
  client o = Some cookie ->
  (forall n h, exists data,
      lyrics_fetch env n h generateId = Response data
      /\ lyrics_status data <> Some "complete") ->
  forall fuel lyricsResponse w,
    heap w !! this = Some o ->
    lyrics_status lyricsResponse <> Some "complete" ->
    fst (lyrics_loop env fuel this generateId lyricsResponse w) = Diverge
    /\ now w + 2000 * Z.of_nat fuel
       <= now (snd (lyrics_loop env fuel this generateId lyricsResponse w))
    /\ trace (snd (lyrics_loop env fuel this generateId lyricsResponse w))
       = trace w ++ lyrics_polls cookie fuel.
Proof.
  intros Hc Hfetch.
  induction fuel as [| fuel IH]; intros lyricsResponse w Ho Hn;
    rewrite lyrics_loop_unfold;
    (destruct (complete lyricsResponse) eqn:E;
     [apply complete_true in E; contradiction |]).
  - simpl. rewrite app_nil_r. repeat split; lia.
  - pose (ws := advance (2 * 1000) (emit (EvSleep (2 * 1000)) w)).
    destruct (Hfetch (tick ws) (interceptor o cookie)) as (next & Hnext & Hnc).
    rewrite (bind_ret (sleep env 2 None) _ w tt ws eq_refl).
    rewrite (bind_ret _ _ _ _ _
               (request_responds env this LyricsFetch
                  (fun n h => lyrics_fetch env n h generateId) ws o cookie next
                  Ho Hc Hnext)).
    match goal with
    | |- context [lyrics_loop env fuel this generateId next ?w'] =>
        destruct (IH next w' Ho Hnc) as (I1 & I2 & I3);
        assert (now w + 2000 <= now w') by (simpl; lia);
        assert (trace w' = trace w ++ [EvSleep 2000; EvRequest cookie LyricsFetch])
          as T by (simpl; now rewrite <- app_assoc)
    end.
    repeat split; [exact I1 | lia |].
    rewrite I3, T, <- app_assoc. reflexivity.
Qed.

End Lyrics.

Lemma keepAlive_renews env this o cookie w :
  heap w !! this = Some o -> truthy (sid o) = true -> client o = Some cookie ->
  (forall n h s v, exists jwt, clerk_tokens env n h s v = Response jwt) ->
  exists o' w',
    keepAlive env this false w = (Ret tt, w')
    /\ heap w' !! this = Some o' /\ client o' = Some cookie /\ now w <= now w'
    /\ trace w' = trace w ++ [EvRequest cookie ClerkTokens].
Proof.
  intros Ho Hs Hc Htok.
  destruct (Htok (tick w) (interceptor o cookie) (sid o) (clerkVersion o)) as [jwt Hjwt].
  unfold keepAlive.
  rewrite (bind_ret (deref this) _ w o w) by (unfold deref; now rewrite Ho).
  rewrite Hs. cbn [negb].
  rewrite (bind_ret _ _ _ _ _
             (request_responds env this ClerkTokens
                (fun n h => clerk_tokens env n h (sid o) (clerkVersion o))
                w o cookie jwt Ho Hc Hjwt)).
  rewrite (bind_ret (ret tt) _ _ tt _ eq_refl).
  unfold update. cbn [heap advance emit consult]. rewrite Ho.
  eexists _, _. split; [reflexivity |]. cbn [heap with_heap now].
  assert (Hlt : (this < length (heap w))%nat) by (eapply lookup_lt_Some; eassumption).
  rewrite (list_lookup_insert_eq _ _ _ Hlt).
  repeat split; [exact Hc | simpl; lia].
Qed.

(** C9.  [generateLyrics] returns only a fetched body whose status is
    ["complete"]; if no fetch is ever complete it never returns, whatever
    the fuel; its loop does nothing but sleep exactly 2000 ms and fetch,
    without a draw of the random source and without a look at the clock;
    and against an upstream that keeps answering with a status other than
    ["complete"] it is still polling after any number of turns: a renewal,
    the submission and a fetch, then a sleep of 2000 ms and a fetch at every
    turn. *)
Theorem generateLyrics_polls_until_complete env this prompt :
  (forall fuel w v w',
      generateLyrics env fuel this prompt w = (Ret v, w') ->
      exists data n h generateId,
        v = VLyrics data
        /\ lyrics_fetch env n h generateId = Response data
        /\ lyrics_status data = Some "complete")
  /\ ((forall n h generateId data,
          lyrics_fetch env n h generateId = Response data ->
          lyrics_status data <> Some "complete") ->
      forall fuel w, is_ret (fst (generateLyrics env fuel this prompt w)) = false)
  /\ (forall fuel generateId lyricsResponse w,
        appends lyrics_poll_event w
          (snd (lyrics_loop env fuel this generateId lyricsResponse w)))
  /\ (forall o cookie w,
        heap w !! this = Some o -> truthy (sid o) = true -> client o = Some cookie ->
        (forall n h s v, exists jwt, clerk_tokens env n h s v = Response jwt) ->
        (forall n h p, exists generateId, lyrics_submit env n h p = Response generateId) ->
        (forall n h generateId, exists data,
            lyrics_fetch env n h generateId = Response data
            /\ lyrics_status data <> Some "complete") ->
        forall fuel,
          fst (generateLyrics env fuel this prompt w) = Diverge
          /\ now w + 2000 * Z.of_nat fuel
             <= now (snd (generateLyrics env fuel this prompt w))
          /\ trace (snd (generateLyrics env fuel this prompt w))
             = trace w
               ++ [EvRequest cookie ClerkTokens; EvRequest cookie LyricsSubmit;
                   EvRequest cookie LyricsFetch]
               ++ lyrics_polls cookie fuel).
Proof.
  split; [| split; [| split]].
  - intros fuel w v w'. apply generateLyrics_returns.
  - intros Hnever fuel w.
    destruct (generateLyrics env fuel this prompt w) as [[v | e |] w'] eqn:E;
      try reflexivity.
    apply generateLyrics_returns in E as (data & n & h & i & _ & Hf & Hc).
    now destruct (Hnever n h i data Hf).
  - intros fuel generateId lyricsResponse w. apply lyrics_loop_trace.
  - intros o cookie w Ho Hs Hc Htok Hsub Hfetch fuel.
    destruct (keepAlive_renews env this o cookie w Ho Hs Hc Htok)
      as (o1 & w1 & Hk & Ho1 & Hc1 & Ht1 & Tr1).
    unfold generateLyrics. rewrite (bind_ret _ _ _ _ _ Hk).
    destruct (Hsub (tick w1) (interceptor o1 cookie) prompt) as [generateId Hid].
    rewrite (bind_ret _ _ _ _ _
               (request_responds env this LyricsSubmit
                  (fun n h => lyrics_submit env n h prompt) w1 o1 cookie generateId
                  Ho1 Hc1 Hid)).
    match goal with
    | |- context [bind (request env this LyricsFetch None ?oracle) ?k ?w2] =>
        destruct (Hfetch (tick w2) (interceptor o1 cookie) generateId)
          as (first & Hfirst & Hnc);
        rewrite (bind_ret _ _ _ _ _
                   (request_responds env this LyricsFetch oracle w2 o1 cookie first
                      Ho1 Hc1 Hfirst));
        assert (Ht2 : now w1 <= now w2) by (simpl; lia)
    end.
    match goal with
    | |- context [bind (lyrics_loop env fuel this generateId first) _ ?w3] =>
        destruct (lyrics_loop_goes_on env this generateId o1 cookie Hc1
                    (fun n h => Hfetch n h generateId) fuel first w3 Ho1 Hnc)
          as (L1 & L2 & L3);
        assert (Ht3 : now w1 <= now w3) by (simpl; lia);
        assert (Tr3 : trace w3
                      = trace w ++ [EvRequest cookie ClerkTokens;
                                    EvRequest cookie LyricsSubmit;
                                    EvRequest cookie LyricsFetch])
          by (simpl; rewrite Tr1, <- !app_assoc; reflexivity)
    end.
    unfold bind.
    destruct (lyrics_loop env fuel this generateId first _) as [[data | e |] w4];
      simpl in L1; try discriminate.
    cbn [fst snd] in *. repeat split; [lia |].
    rewrite L3, Tr3, <- app_assoc. reflexivity.
Qed.

Lemma generateLyrics_polls_until_complete_witness :
  let r := generateLyrics env_lyrics_stuck 40 0%nat "a song" (loaded env_lyrics_stuck) in
  fst r = Diverge
  /\ now (loaded env_lyrics_stuck) + 2000 * 40 <= now (snd r)
  /\ is_ret (fst r) = false.
Proof.
  intros r.
  destruct (generateLyrics_polls_until_complete env_lyrics_stuck 0%nat "a song")
    as (_ & Hnever & _ & Hloop).
  destruct (Hloop {| client := Some "cookie-main"; clerkVersion := Some "5.0";
                     sid := Some "sess_1"; currentToken := Some "jwt";
                     bindings := [Name.generate; Name.concatenate; Name.custom_generate;
                                  Name.generateLyrics; Name.extendAudio] |}
                  "cookie-main" (loaded env_lyrics_stuck)) with (fuel := 40%nat)
    as (H1 & H2 & _).
  - vm_compute. reflexivity.
  - reflexivity.
  - reflexivity.
  - intros. eexists. reflexivity.
  - intros. eexists. reflexivity.
  - intros. eexists. split; [reflexivity | discriminate].
  - split; [exact H1 | split; [exact H2 |]].
    apply Hnever. intros n h i data Hf. simpl in Hf.
    inversion Hf; subst. discriminate.
Defined.

(** The lyrics are returned as soon as a fetch is complete: here at the
    third fetch, 4 seconds in. *)
Example generateLyrics_third_fetch :
  let r := generateLyrics env_lyrics_third 10 0%nat "a song" (loaded env_lyrics_third) in
  fst r = Ret (VLyrics {| lyrics_status := Some "complete"; lyrics_text := "la la" |})
  /\ now (snd r) - now (loaded env_lyrics_third) = 4000.
Proof. vm_compute. split; reflexivity. Qed.

(** * More of the code *)

(** ** [parseLyrics] *)

Lemma split_lines_not_nil s : split_lines s <> [].
Proof.
  destruct s as [| c rest]; simpl; [discriminate |].
  destruct (Ascii.eqb c (ascii_of_nat 10)); [discriminate |].
  destruct (split_lines rest); discriminate.
Qed.

Lemma join_split_lines s : String.concat newline (split_lines s) = s.
Proof.
  induction s as [| c rest IH]; [reflexivity |].
  simpl split_lines.
  destruct (Ascii.eqb c (ascii_of_nat 10)) eqn:E.
  - apply Ascii.eqb_eq in E. subst c.
    pose proof (split_lines_not_nil rest) as Hne.
    destruct (split_lines rest) as [| l ls]; [contradiction |].
    change (String.concat newline (EmptyString :: l :: ls))
      with (newline ++ String.concat newline (l :: ls))%string.
    now rewrite IH.
  - pose proof (split_lines_not_nil rest) as Hne.
    destruct (split_lines rest) as [| l ls]; [contradiction |].
    destruct ls as [| l' ls].
    + simpl in *. now rewrite IH.
    + change (String.concat newline (String c l :: l' :: ls))
        with (String c (l ++ newline ++ String.concat newline (l' :: ls)))%string.
      change (String.concat newline (l :: l' :: ls))
        with (l ++ newline ++ String.concat newline (l' :: ls))%string in IH.
      now rewrite IH.
Qed.

Lemma split_lines_single_lines s : Forall (fun l => single_line l = true) (split_lines s).
Proof.
  induction s as [| c rest IH]; [now repeat constructor |].
  simpl split_lines. destruct (Ascii.eqb c (ascii_of_nat 10)) eqn:E.
  - now constructor.
  - destruct (split_lines rest) as [| l ls].
    + constructor; [simpl; now rewrite E | constructor].
    + inversion IH; subst. constructor; [| assumption].
      simpl. rewrite E. assumption.
Qed.

Lemma split_lines_single_line l : single_line l = true -> split_lines l = [l].
Proof.
  induction l as [| c rest IH]; [reflexivity |].
  simpl. intros H. apply andb_true_iff in H as [Hc Hrest].
  apply negb_true_iff in Hc. rewrite Hc, (IH Hrest). reflexivity.
Qed.

Lemma split_lines_app l s :
  single_line l = true ->
  split_lines (l ++ newline ++ s) = l :: split_lines s.
Proof.
  induction l as [| c rest IH]; [reflexivity |].
  simpl. intros H. apply andb_true_iff in H as [Hc Hrest].
  apply negb_true_iff in Hc. rewrite Hc.
  change (split_lines (rest ++ String (ascii_of_nat 10) s))
    with (split_lines (rest ++ newline ++ s)).
  now rewrite (IH Hrest).
Qed.

Lemma split_join_lines ls :
  ls <> [] -> Forall (fun l => single_line l = true) ls ->
  split_lines (String.concat newline ls) = ls.
Proof.
  induction ls as [| l ls IH]; [contradiction |].
  intros _ H. inversion H as [| ? ? Hl Hls]; subst.
  destruct ls as [| l' ls].
  - simpl. now apply split_lines_single_line.
  - change (String.concat newline (l :: l' :: ls))
      with (l ++ newline ++ String.concat newline (l' :: ls))%string.
    rewrite (split_lines_app _ _ Hl), IH; [reflexivity | discriminate | assumption].
Qed.

Lemma filter_single_lines f ls :
  Forall (fun l => single_line l = true) ls ->
  Forall (fun l => single_line l = true) (List.filter f ls).
Proof.
  induction 1 as [| l ls Hl _ IH]; simpl; [constructor |].
  destruct (f l); [now constructor | assumption].
Qed.

Lemma filter_filter {A} (f : A -> bool) l :
  List.filter f (List.filter f l) = List.filter f l.
Proof.
  induction l as [| a l IH]; [reflexivity |].
  simpl. destruct (f a) eqn:E; [| assumption]. simpl. now rewrite E, IH.
Qed.

Lemma filter_all {A} (f : A -> bool) l : forallb f l = true -> List.filter f l = l.
Proof.
  induction l as [| a l IH]; [reflexivity |].
  simpl. intros H. apply andb_true_iff in H as [Ha Hl]. now rewrite Ha, (IH Hl).
Qed.

(** [not_blank] skips every code point that [trim] strips, wherever it
    stands in front of the rest of the line. *)
Lemma not_blank_skips_white_space :
  Forall (fun cp => forall s, not_blank (utf8 cp ++ s) = not_blank s) WhiteSpace.
Proof. repeat constructor. Qed.

(** A line is not blank when it starts with a byte that starts no white
    space: any byte but the six of one byte and the lead bytes [C2], [E1],
    [E2], [E3] and [EF]. *)
Lemma not_blank_starts_with c s :
  is_space1 c = false ->
  existsb (Nat.eqb (nat_of_ascii c)) [194; 225; 226; 227; 239]%nat = false ->
  not_blank (String c s) = true.
Proof.
  intros H1 H. cbn [existsb] in H. rewrite !orb_false_iff in H.
  destruct H as (E194 & E225 & E226 & E227 & E239 & _).
  cbn [not_blank]. rewrite H1.
  destruct s as [| c2 [| c3 s]]; try reflexivity.
  - unfold is_space2. now rewrite E194.
  - unfold is_space2, is_space3. cbv zeta. now rewrite E194, E225, E226, E227, E239.
Qed.

(** U+0085, U+180E and U+200B are not stripped by [trim]. *)
Example not_blank_other_spaces :
  forallb (fun cp => not_blank (utf8 cp)) [0x85; 0x180E; 0x200B]%N = true.
Proof. reflexivity. Qed.

(** Splitting at the line feeds and joining with line feeds gives the
    string back; hence lyrics without a blank line (a line that is empty or
    white space only) come out of [parseLyrics] as they went in. *)
Theorem parseLyrics_keeps_lyrics_without_blank_lines s :
  String.concat newline (split_lines s) = s
  /\ (forallb not_blank (split_lines s) = true -> parseLyrics s = s).
Proof.
  split; [apply join_split_lines |].
  intros H. unfold parseLyrics. rewrite (filter_all _ _ H). apply join_split_lines.
Qed.

Lemma parseLyrics_keeps_lyrics_without_blank_lines_witness :
  let s := ("la la" ++ newline ++ no_break_space ++ "do re mi" ++ ideographic_space)%string in
  String.concat newline (split_lines s) = s /\ parseLyrics s = s.
Proof.
  intros s. destruct (parseLyrics_keeps_lyrics_without_blank_lines s) as [H1 H2].
  split; [exact H1 | apply H2; reflexivity].
Defined.

(** The lines of [parseLyrics s] are the lines of [s] that are not blank,
    in their order; when every line of [s] is blank the result is the empty
    string. *)
Theorem parseLyrics_lines s :
  (List.filter not_blank (split_lines s) = [] -> parseLyrics s = "")
  /\ (List.filter not_blank (split_lines s) <> [] ->
      split_lines (parseLyrics s) = List.filter not_blank (split_lines s)
      /\ forallb not_blank (split_lines (parseLyrics s)) = true).
Proof.
  unfold parseLyrics. split.
  - intros ->. reflexivity.
  - intros Hne.
    assert (E : split_lines (String.concat newline (List.filter not_blank (split_lines s)))
                = List.filter not_blank (split_lines s)).
    { apply split_join_lines; [exact Hne |].
      apply filter_single_lines, split_lines_single_lines. }
    split; [exact E |]. rewrite E.
    apply forallb_forall. intros l Hl. now apply List.filter_In in Hl.
Qed.

Lemma parseLyrics_lines_witness :
  let s := ("verse one" ++ newline ++ "   " ++ newline ++ newline
            ++ no_break_space ++ " " ++ line_separator ++ ideographic_space ++ newline
            ++ "verse two")%string in
  let blank := (newline ++ " " ++ no_break_space ++ newline ++ ideographic_space)%string in
  split_lines (parseLyrics s) = ["verse one"; "verse two"]
  /\ parseLyrics blank = "".
Proof.
  intros s blank. split.
  - destruct (parseLyrics_lines s) as [_ H]. apply H. vm_compute. discriminate.
  - destruct (parseLyrics_lines blank) as [H _].
    apply H. reflexivity.
Defined.

(** [parseLyrics] is idempotent. *)
Theorem parseLyrics_idempotent s : parseLyrics (parseLyrics s) = parseLyrics s.
Proof.
  destruct (List.filter not_blank (split_lines s)) as [| l ls] eqn:E.
  - assert (H : parseLyrics s = "") by (unfold parseLyrics; now rewrite E).
    rewrite H. reflexivity.
  - assert (Hne : List.filter not_blank (split_lines s) <> []) by (rewrite E; discriminate).
    assert (Hs : split_lines (parseLyrics s) = List.filter not_blank (split_lines s)).
    { unfold parseLyrics. apply split_join_lines; [exact Hne |].
      apply filter_single_lines, split_lines_single_lines. }
    unfold parseLyrics at 1. rewrite Hs, filter_filter. reflexivity.
Qed.

(** ** The Session manager *)

Lemma bind_throw {A B} (m : M A) (k : A -> M B) w e w' :
  m w = (Throw e, w') -> bind m k w = (Throw e, w').
Proof. intros H. unfold bind. now rewrite H. Qed.

Lemma update_runs this f w o :
  heap w !! this = Some o ->
  update this f w = (Ret tt, with_heap (<[this := f o]> (heap w)) w)
  /\ heap (with_heap (<[this := f o]> (heap w)) w) !! this = Some (f o).
Proof.
  intros Ho. unfold update. rewrite Ho. split; [reflexivity |]. simpl.
  apply list_lookup_insert_eq. eapply lookup_lt_Some; eassumption.
Qed.

Lemma init_establishes_session_witness :
  exists o,
    heap (snd (init env_plenty 0%nat "cookie-main" (snd (new_SunoApi fresh)))) !! 0%nat
    = Some o
    /\ client o = Some "cookie-main"
    /\ truthy (clerkVersion o) = true
    /\ truthy (sid o) = true.
Proof.
  apply (init_establishes_session env_plenty 0%nat "cookie-main"
           (snd (new_SunoApi fresh)) 0%nat).
  vm_compute. reflexivity.
Defined.

(** The steps of [init] are taken in order and the first that fails ends
    it.  A version answer without a body, or whose tags have no (or an
    empty) ["latest"], ends it with the version error; a body without
    ["tags"] ends it with the TypeError of the unguarded read; in both cases
    the Clerk client is never asked.  With a version and without a session
    id it ends with the session error, and no token is ever requested. *)
Theorem init_stops_at_the_first_failure env this cookie o w :
  heap w !! this = Some o ->
  (forall body,
      (forall h, Cookie h = cookie ->
                 jsdelivr_package env (tick w) h = Response body) ->
      body = NoData \/ (exists latest, body = Tags latest /\ truthy latest = false) ->
      exists w',
        init env this cookie w
        = (Throw "Failed to get clerk version info, Please try again later", w')
        /\ trace w' = trace w ++ [EvRequest cookie ClerkVersion])
  /\ ((forall h, Cookie h = cookie ->
                 jsdelivr_package env (tick w) h = Response NoTags) ->
      exists w',
        init env this cookie w
        = (Throw "TypeError: Cannot read properties of undefined (reading 'latest')", w')
        /\ trace w' = trace w ++ [EvRequest cookie ClerkVersion])
  /\ (forall latest session,
        (forall h, Cookie h = cookie ->
                   jsdelivr_package env (tick w) h = Response (Tags latest)) ->
        truthy latest = true ->
        (forall h, Cookie h = cookie ->
                   clerk_client env (S (tick w)) h latest = Response session) ->
        truthy session = false ->
        exists w',
          init env this cookie w
          = (Throw "Failed to get session id, you may need to update the SUNO_COOKIE", w')
          /\ trace w' = trace w ++ [EvRequest cookie ClerkVersion;
                                    EvRequest cookie ClerkClient]).
Proof.
  intros Ho.
  pose (o1 := {| client := client o; clerkVersion := clerkVersion o; sid := sid o;
                 currentToken := currentToken o;
                 bindings := [Name.generate; Name.concatenate; Name.custom_generate;
                              Name.generateLyrics; Name.extendAudio] |}).
  pose (o2 := {| client := Some cookie; clerkVersion := clerkVersion o1; sid := sid o1;
                 currentToken := currentToken o1; bindings := bindings o1 |}).
  destruct (update_runs this (fun _ => o1) w o Ho) as [_ H1].
  pose (w1 := with_heap (<[this := o1]> (heap w)) w).
  destruct (update_runs this (fun _ => o2) w1 o1 H1) as [_ H2].
  pose (w2 := with_heap (<[this := o2]> (heap w1)) w1).
  assert (Hinit : init env this cookie w
                  = (getClerkLatestVersion env this ;;;
                     getAuthToken env this ;;;
                     keepAlive env this false ;;;
                     ret this) w2).
  { unfold init, setupBindings.
    rewrite (bind_ret _ _ w tt w1)
      by (unfold update; rewrite Ho; reflexivity).
    rewrite (bind_ret _ _ w1 tt w2)
      by (unfold update; fold w1 in H1; rewrite H1; reflexivity).
    reflexivity. }
  rewrite Hinit.
  assert (Hbody : forall body,
             (forall h, Cookie h = cookie ->
                        jsdelivr_package env (tick w) h = Response body) ->
             request env this ClerkVersion None (jsdelivr_package env) w2
             = (Ret body, advance (Z.of_N (latency env (tick w2) ClerkVersion))
                            (emit (EvRequest cookie ClerkVersion) (consult w2)))).
  { intros body Hv.
    exact (request_responds env this ClerkVersion (jsdelivr_package env)
             w2 o2 cookie body H2 eq_refl (Hv (interceptor o2 cookie) eq_refl)). }
  split; [| split].
  - intros body Hv Hfalsy.
    eexists. split.
    + apply bind_throw. unfold getClerkLatestVersion.
      rewrite (bind_ret _ _ _ _ _ (Hbody body Hv)).
      destruct Hfalsy as [-> | (latest & -> & Hfalsy)]; [reflexivity |].
      rewrite Hfalsy. reflexivity.
    + reflexivity.
  - intros Hv.
    eexists. split.
    + apply bind_throw. unfold getClerkLatestVersion.
      rewrite (bind_ret _ _ _ _ _ (Hbody NoTags Hv)). reflexivity.
    + reflexivity.
  - intros latest session Hv Htruthy Hs Hfalsy.
    pose (o3 := {| client := client o2; clerkVersion := latest; sid := sid o2;
                   currentToken := currentToken o2; bindings := bindings o2 |}).
    pose (w2' := advance (Z.of_N (latency env (tick w2) ClerkVersion))
                   (emit (EvRequest cookie ClerkVersion) (consult w2))).
    assert (H2' : heap w2' !! this = Some o2) by exact H2.
    destruct (update_runs this (fun _ => o3) w2' o2 H2') as [_ H3].
    pose (w3 := with_heap (<[this := o3]> (heap w2')) w2').
    assert (Hversion : getClerkLatestVersion env this w2 = (Ret tt, w3)).
    { unfold getClerkLatestVersion.
      rewrite (bind_ret _ _ _ _ _ (Hbody (Tags latest) Hv)).
      rewrite Htruthy. cbn [negb]. unfold update. fold w2'. rewrite H2'. reflexivity. }
    rewrite (bind_ret _ _ _ _ _ Hversion).
    eexists. split.
    + apply bind_throw. unfold getAuthToken.
      rewrite (bind_ret (deref this) _ w3 o3 w3) by (unfold deref; fold w3 in H3; now rewrite H3).
      rewrite (bind_ret _ _ _ _ _
                 (request_responds env this ClerkClient
                    (fun n h => clerk_client env n h (clerkVersion o3))
                    w3 o3 cookie session H3 eq_refl (Hs (interceptor o3 cookie) eq_refl))).
      rewrite Hfalsy. reflexivity.
    + simpl. now rewrite <- app_assoc.
Qed.

Lemma init_stops_at_the_first_failure_witness :
  (exists w',
      init env_expired_only 0%nat "cookie-expired" (snd (new_SunoApi fresh))
      = (Throw "Failed to get session id, you may need to update the SUNO_COOKIE", w')
      /\ trace w' = trace (snd (new_SunoApi fresh))
                    ++ [EvRequest "cookie-expired" ClerkVersion;
                        EvRequest "cookie-expired" ClerkClient])
  /\ (exists w',
        init env_no_tags 0%nat "cookie-main" (snd (new_SunoApi fresh))
        = (Throw "TypeError: Cannot read properties of undefined (reading 'latest')", w')
        /\ trace w' = trace (snd (new_SunoApi fresh))
                      ++ [EvRequest "cookie-main" ClerkVersion])
  /\ (exists w',
        init env_no_version 0%nat "cookie-main" (snd (new_SunoApi fresh))
        = (Throw "Failed to get clerk version info, Please try again later", w')
        /\ trace w' = trace (snd (new_SunoApi fresh))
                      ++ [EvRequest "cookie-main" ClerkVersion]).
Proof.
  split; [| split].
  - destruct (init_stops_at_the_first_failure env_expired_only 0%nat "cookie-expired"
                {| client := None; clerkVersion := None; sid := None;
                   currentToken := None; bindings := [] |}
                (snd (new_SunoApi fresh)) eq_refl) as (_ & _ & H).
    apply (H (Some "5.0") None); try reflexivity.
    intros h Hc. simpl. unfold sessions. now rewrite Hc.
  - destruct (init_stops_at_the_first_failure env_no_tags 0%nat "cookie-main"
                {| client := None; clerkVersion := None; sid := None;
                   currentToken := None; bindings := [] |}
                (snd (new_SunoApi fresh)) eq_refl) as (_ & H & _).
    apply H. reflexivity.
  - destruct (init_stops_at_the_first_failure env_no_version 0%nat "cookie-main"
                {| client := None; clerkVersion := None; sid := None;
                   currentToken := None; bindings := [] |}
                (snd (new_SunoApi fresh)) eq_refl) as (H & _).
    apply (H (Tags None)); [reflexivity |]. right. exists None. split; reflexivity.
Defined.

Lemma keepAlive_unset env this isWait o w :
  heap w !! this = Some o -> truthy (sid o) = false ->
  keepAlive env this isWait w = (Throw "Session ID is not set. Cannot renew token.", w).
Proof.
  intros Ho Hs. unfold keepAlive.
  rewrite (bind_ret (deref this) _ w o w) by (unfold deref; now rewrite Ho).
  now rewrite Hs.
Qed.

(** On an instance without a session id every method that renews the token
    fails with the same error before anything is sent: the feed, a clip, the
    quota, the guard and four of the five generation operations.
    [extendAudio], which posts without renewing, is the exception. *)
Theorem without_session_id_nothing_is_sent env fuel lookup method this o w :
  heap w !! this = Some o -> truthy (sid o) = false ->
  let unset := "Session ID is not set. Cannot renew token." in
  (forall songIds, get env this songIds w = (Throw unset, w))
  /\ (forall clipId, getClip env this clipId w = (Throw unset, w))
  /\ get_credits env this false w = (Throw unset, w)
  /\ (forall args,
        licenseCheckDecorator env lookup method this args w = (Throw unset, w))
  /\ (forall args, method_name args <> Name.extendAudio ->
                   prototype env fuel this args w = (Throw unset, w)).
Proof.
  intros Ho Hs unset.
  pose proof (keepAlive_unset env this false o w Ho Hs) as K.
  assert (Q : get_credits env this false w = (Throw unset, w)).
  { unfold get_credits. cbn [negb]. now apply bind_throw. }
  repeat split.
  - intros songIds. unfold get. now apply bind_throw.
  - intros clipId. unfold getClip. now apply bind_throw.
  - exact Q.
  - intros args. unfold licenseCheckDecorator. now apply bind_throw.
  - intros args Hname. destruct args; simpl.
    + unfold generate. now apply bind_throw.
    + unfold concatenate. now apply bind_throw.
    + unfold custom_generate, generateSongs. apply bind_throw. now apply bind_throw.
    + unfold generateLyrics. now apply bind_throw.
    + now destruct Hname.
Qed.

Lemma without_session_id_nothing_is_sent_witness :
  let w := snd (new_SunoApi fresh) in
  get env_plenty 0%nat None w = (Throw "Session ID is not set. Cannot renew token.", w)
  /\ prototype env_plenty 3 0%nat (GenerateLyrics "a song") w
     = (Throw "Session ID is not set. Cannot renew token.", w).
Proof.
  intros w.
  destruct (without_session_id_nothing_is_sent env_plenty 3 (invoke env_plenty 2)
              (prototype env_plenty 2) 0%nat
              {| client := None; clerkVersion := None; sid := None;
                 currentToken := None; bindings := [] |} w eq_refl eq_refl)
    as (H1 & _ & _ & _ & H5).
  split; [apply H1 | apply H5; discriminate].
Defined.

Lemma keepAlive_succeeds env this (isWait : bool) o cookie jwt w :
  heap w !! this = Some o -> truthy (sid o) = true -> client o = Some cookie ->
  clerk_tokens env (tick w) (interceptor o cookie) (sid o) (clerkVersion o)
  = Response jwt ->
  exists w' ms,
    keepAlive env this isWait w = (Ret tt, w')
    /\ heap w' !! this
       = Some {| client := client o; clerkVersion := clerkVersion o; sid := sid o;
                 currentToken := jwt; bindings := bindings o |}
    /\ trace w' = trace w ++ EvRequest cookie ClerkTokens
                              :: (if isWait then [EvSleep ms] else [])
    /\ 1000 <= ms <= 2000
    /\ now w <= now w'.
Proof.
  intros Ho Hs Hc Hjwt. unfold keepAlive.
  rewrite (bind_ret (deref this) _ w o w) by (unfold deref; now rewrite Ho).
  rewrite Hs. cbn [negb].
  rewrite (bind_ret _ _ _ _ _
             (request_responds env this ClerkTokens
                (fun n h => clerk_tokens env n h (sid o) (clerkVersion o))
                w o cookie jwt Ho Hc Hjwt)).
  set (w1 := advance (Z.of_N (latency env (tick w) ClerkTokens))
               (emit (EvRequest cookie ClerkTokens) (consult w))).
  assert (Ho1 : heap w1 !! this = Some o) by exact Ho.
  destruct isWait.
  - destruct (sleep_duration env 1 (Some 2) w1) as (ms & E & B); [lia | simpl; lia |].
    rewrite (bind_ret _ _ _ _ _ E).
    match goal with
    | |- context [update this ?f ?ws] =>
        assert (Hos : heap ws !! this = Some o) by exact Ho;
        destruct (update_runs this f ws o Hos) as [U1 U2];
        exists (with_heap (<[this := f o]> (heap ws)) ws), ms
    end.
    split; [exact U1 |]. split; [exact U2 |]. cbn [negb Z.eqb] in *.
    split; [simpl; now rewrite <- app_assoc |]. split; [simpl in B; lia |].
    simpl. lia.
  - rewrite (bind_ret (ret tt) _ w1 tt w1 eq_refl).
    match goal with
    | |- context [update this ?f w1] =>
        destruct (update_runs this f w1 o Ho1) as [U1 U2];
        exists (with_heap (<[this := f o]> (heap w1)) w1), 1000
    end.
    split; [exact U1 |]. split; [exact U2 |].
    split; [reflexivity |]. split; [lia |]. simpl. lia.
Qed.

(** A renewal that is answered replaces the bearer token by the [jwt] of the
    answer, whatever it is, and changes nothing else of the Session; the
    requests that follow carry it as [Bearer jwt], or no Authorization
    header at all when the answer had no [jwt]. *)
Theorem keepAlive_replaces_the_token env this (isWait : bool) o cookie jwt w :
  heap w !! this = Some o -> truthy (sid o) = true -> client o = Some cookie ->
  clerk_tokens env (tick w) (interceptor o cookie) (sid o) (clerkVersion o)
  = Response jwt ->
  exists w' o',
    keepAlive env this isWait w = (Ret tt, w')
    /\ heap w' !! this = Some o'
    /\ currentToken o' = jwt
    /\ client o' = client o /\ clerkVersion o' = clerkVersion o
    /\ sid o' = sid o /\ bindings o' = bindings o
    /\ Authorization (interceptor o' cookie)
       = match jwt with
         | Some token => if (token =? "")%string then None
                         else Some ("Bearer " ++ token)%string
         | None => None
         end.
Proof.
  intros Ho Hs Hc Hjwt.
  destruct (keepAlive_succeeds env this isWait o cookie jwt w Ho Hs Hc Hjwt)
    as (w' & ms & K & H & _).
  eexists w', _. split; [exact K |]. split; [exact H |].
  repeat split. unfold interceptor. cbn [currentToken Authorization].
  destruct jwt as [token |]; [| reflexivity]. simpl.
  now destruct (token =? "")%string.
Qed.

Lemma keepAlive_replaces_the_token_witness :
  exists w' o',
    keepAlive env_no_jwt 0%nat true (loaded env_no_jwt) = (Ret tt, w')
    /\ heap w' !! 0%nat = Some o'
    /\ currentToken o' = None
    /\ Authorization (interceptor o' "cookie-main") = None.
Proof.
  destruct (keepAlive_replaces_the_token env_no_jwt 0%nat true
              {| client := Some "cookie-main"; clerkVersion := Some "5.0";
                 sid := Some "sess_1"; currentToken := None;
                 bindings := [Name.generate; Name.concatenate; Name.custom_generate;
                              Name.generateLyrics; Name.extendAudio] |}
              "cookie-main" None (loaded env_no_jwt))
    as (w' & o' & H1 & H2 & H3 & _ & _ & _ & _ & H8);
    [vm_compute; reflexivity | reflexivity | reflexivity | reflexivity |].
  exists w', o'. auto.
Defined.

(** ** More on the guard *)

Lemma appends_weaken (P Q : event -> Prop) w w' :
  (forall e, P e -> Q e) -> appends P w w' -> appends Q w w'.
Proof.
  intros H (evs & E & F). exists evs. split; [exact E |].
  eapply List.Forall_impl; [exact H | exact F].
Qed.

Lemma sheet_call_trace {A} env ev (oracle : nat -> http A) w :
  trace (snd (sheet_call env ev oracle w)) = trace w ++ [ev]
  /\ activeSunoLicense (snd (sheet_call env ev oracle w)) = activeSunoLicense w
  /\ sunoApi (snd (sheet_call env ev oracle w)) = sunoApi w.
Proof. unfold sheet_call. now destruct (oracle (tick w)). Qed.

Lemma newSunoApi_never_writes env cookie :
  forall w, appends not_a_write w (snd (newSunoApi env cookie w)).
Proof.
  unfold newSunoApi. apply appends_bind.
  - destruct (negb (truthy (Some cookie))); [| intros w; apply appends_refl].
    apply appends_bind.
    + intros w. destruct (sheet_call_trace env EvSheetGetActive
                            (getSunoActiveLicense env) w) as (T & _).
      exists [EvSheetGetActive]. split; [exact T | now repeat constructor].
    + intros lic. apply appends_bind; [intros w; now apply appends_same_trace |].
      intros _ w. destruct lic; apply appends_refl.
  - intros cookie'. apply appends_bind.
    + intros w. exists [EvNew]. split; [reflexivity | now repeat constructor].
    + intros api. apply appends_bind; [| intros _ w; apply appends_refl].
      intros w. apply appends_upstream_not_a_write.
      apply (respects_init env _ upstream_only_laws api cookie'
               (fun h w0 => appends_refl _ (with_heap h w0))).
Qed.

Lemma probe_never_writes env lic :
  forall w, appends not_a_write w (snd (probe env lic w)).
Proof.
  unfold probe. apply appends_bind; [apply newSunoApi_never_writes |].
  intros api. apply appends_bind; [intros w; now apply appends_same_trace |].
  intros _. apply appends_bind; [| intros cr w; apply appends_refl].
  intros w. apply appends_upstream_not_a_write.
  apply (respects_get_credits env _ upstream_only_laws).
Qed.

(** A billing answer without [total_credits_left] counts as sufficient for
    the active Session, whose guard applies the operation without looking
    at the sheet, and as insufficient for a candidate, which the loop passes
    over. *)
Theorem missing_quota_is_sufficient_only_for_the_active_session
    env lookup method this args :
  (forall w cr w1,
      get_credits env this false w = (Ret cr, w1) -> credits_left cr = None ->
      licenseCheckDecorator env lookup method this args w = method this args w1)
  /\ (forall lic rest w api cr w',
        probe env lic w = (Ret (api, cr), w') -> credits_left cr = None ->
        scan env lookup args (lic :: rest) w = scan env lookup args rest w').
Proof.
  split.
  - intros w cr w1 Hq Hnone. apply decorator_fast_path with cr; [exact Hq |].
    now rewrite Hnone.
  - intros lic rest w api cr w' Hp Hnone. now rewrite scan_cons, Hp, Hnone.
Qed.

Lemma missing_quota_is_sufficient_only_for_the_active_session_witness :
  let env := env_unreadable in
  let w := loaded env in
  licenseCheckDecorator env (invoke env 2) (prototype env 2) 0%nat (Concatenate "clip") w
  = prototype env 2 0%nat (Concatenate "clip") (snd (get_credits env 0%nat false w))
  /\ scan env (invoke env 2) (Concatenate "clip") [lic_a; lic_b] w
     = scan env (invoke env 2) (Concatenate "clip") [lic_b] (snd (probe env lic_a w)).
Proof.
  intros env w.
  destruct (missing_quota_is_sufficient_only_for_the_active_session env (invoke env 2)
              (prototype env 2) 0%nat (Concatenate "clip")) as [H1 H2].
  split.
  - apply (H1 w {| credits_left := None; credits_period := Some "month";
                   credits_monthly_limit := Some 500; credits_monthly_usage := Some 0 |});
      [vm_compute; reflexivity | reflexivity].
  - apply (H2 lic_a [lic_b] w 1%nat
              {| credits_left := None; credits_period := Some "month";
                 credits_monthly_limit := Some 500; credits_monthly_usage := Some 0 |});
      [vm_compute; reflexivity | reflexivity].
Defined.

(** An error is never taken for a low quota and never skipped: when the
    quota query of the active Session throws, when the sheet cannot be
    listed, or when a candidate cannot be initialised or queried, the guard
    throws that error; the operation is not applied, and in the last case
    nothing has been written to the sheet although later rows may hold a
    usable credential. *)
Theorem guard_rethrows env lookup method this args w :
  (forall e w1,
      get_credits env this false w = (Throw e, w1) ->
      licenseCheckDecorator env lookup method this args w = (Throw e, w1))
  /\ (forall cr w1 e w2,
        get_credits env this false w = (Ret cr, w1) ->
        js_lt (credits_left cr) licenseCheckDecorator_threshold = true ->
        sheet_call env EvSheetKeys (getSunoLicenseKeys env) w1 = (Throw e, w2) ->
        licenseCheckDecorator env lookup method this args w = (Throw e, w2))
  /\ (forall cr w1 pre lic post w2 w3 e w4,
        get_credits env this false w = (Ret cr, w1) ->
        js_lt (credits_left cr) licenseCheckDecorator_threshold = true ->
        sheet_call env EvSheetKeys (getSunoLicenseKeys env) w1
        = (Ret (pre ++ lic :: post), w2) ->
        rejected env pre w2 = Some w3 ->
        probe env lic w3 = (Throw e, w4) ->
        licenseCheckDecorator env lookup method this args w = (Throw e, w4)
        /\ store_writes (trace w4) = store_writes (trace w)).
Proof.
  split; [| split].
  - intros e w1 Hq. unfold licenseCheckDecorator. now apply bind_throw.
  - intros cr w1 e w2 Hq Hlt Hkeys. unfold licenseCheckDecorator.
    rewrite (bind_ret _ _ _ _ _ Hq), Hlt. now apply bind_throw.
  - intros cr w1 pre lic post w2 w3 e w4 Hq Hlt Hkeys Hrej Hprobe. split.
    + unfold licenseCheckDecorator.
      rewrite (bind_ret _ _ _ _ _ Hq), Hlt, (bind_ret _ _ _ _ _ Hkeys).
      apply bind_throw.
      now rewrite (scan_rejected _ _ _ _ _ _ _ Hrej), scan_cons, Hprobe.
    + pose proof (respects_run _ _ _ _ _
                    (respects_get_credits env _ upstream_only_laws this false) Hq) as Q1.
      pose proof (sheet_call_returns _ _ _ _ _ _ Hkeys) as (_ & K1 & _ & _).
      pose proof (rejected_frame _ _ _ _ Hrej) as (R1 & _ & _).
      pose proof (probe_never_writes env lic w3) as P1.
      rewrite Hprobe in P1. cbn [snd] in P1.
      rewrite (appends_store_writes _ _ P1), (appends_store_writes _ _ R1), K1,
        store_writes_app. simpl. rewrite app_nil_r.
      now apply appends_upstream_store_writes.
Qed.

Lemma guard_rethrows_witness :
  let env := env_expired_first in
  let w := loaded env in
  let w1 := snd (get_credits env 0%nat false w) in
  let w2 := snd (sheet_call env EvSheetKeys (getSunoLicenseKeys env) w1) in
  let w4 := snd (probe env lic_expired w2) in
  licenseCheckDecorator env (invoke env 2) (prototype env 2) 0%nat (Concatenate "clip") w
  = (Throw "Failed to get session id, you may need to update the SUNO_COOKIE", w4)
  /\ store_writes (trace w4) = store_writes (trace w).
Proof.
  intros env w w1 w2 w4.
  destruct (guard_rethrows env (invoke env 2) (prototype env 2) 0%nat
              (Concatenate "clip") w) as (_ & _ & H).
  apply (H {| credits_left := Some 5; credits_period := Some "month";
              credits_monthly_limit := Some 500; credits_monthly_usage := Some 0 |}
           w1 [] lic_expired [lic_b] w2 w2); vm_compute; reflexivity.
Defined.

(** When the sheet refuses the write of a promotion the guard throws and
    the operation is not applied, but the module already names the
    candidate: [activeSunoLicense] and [sunoApi] were assigned before the
    write was attempted. *)
Theorem failed_promotion_leaves_the_module_switched
    env lookup method this args w cr w1 pre lic post w2 w3 api cr' w4 e w5 :
  get_credits env this false w = (Ret cr, w1) ->
  js_lt (credits_left cr) licenseCheckDecorator_threshold = true ->
  sheet_call env EvSheetKeys (getSunoLicenseKeys env) w1
  = (Ret (pre ++ lic :: post), w2) ->
  rejected env pre w2 = Some w3 ->
  probe env lic w3 = (Ret (api, cr'), w4) ->
  js_ge (credits_left cr') licenseCheckDecorator_threshold = true ->
  sheet_call env (EvSheetSetActive (account lic) (licenseKey lic))
    (fun n => setSunoActiveLicense env n (account lic) (licenseKey lic))
    (with_activeSunoLicense (Some lic) w4) = (Throw e, w5) ->
  licenseCheckDecorator env lookup method this args w = (Throw e, w5)
  /\ activeSunoLicense w5 = Some lic
  /\ sunoApi w5 = Some api.
Proof.
  intros Hq Hlt Hkeys Hrej Hprobe Hge Hset.
  pose proof (probe_returns _ _ _ _ _ _ Hprobe) as (_ & _ & _ & P4).
  destruct (sheet_call_trace env (EvSheetSetActive (account lic) (licenseKey lic))
              (fun n => setSunoActiveLicense env n (account lic) (licenseKey lic))
              (with_activeSunoLicense (Some lic) w4)) as (_ & S2 & S3).
  rewrite Hset in S2, S3. simpl in S2, S3.
  repeat split; [| exact S2 | now rewrite S3].
  unfold licenseCheckDecorator.
  rewrite (bind_ret _ _ _ _ _ Hq), Hlt, (bind_ret _ _ _ _ _ Hkeys).
  apply bind_throw.
  rewrite (scan_rejected _ _ _ _ _ _ _ Hrej), scan_cons, Hprobe, Hge.
  rewrite (bind_ret (modify_world _) _ w4 tt _ eq_refl).
  now apply bind_throw.
Qed.

Lemma failed_promotion_leaves_the_module_switched_witness :
  let env := env_readonly_sheet in
  let w := loaded env in
  let r := licenseCheckDecorator env (invoke env 2) (prototype env 2) 0%nat
             (Concatenate "clip") w in
  fst r = Throw "The sheet is read-only"
  /\ activeSunoLicense (snd r) = Some lic_b
  /\ sunoApi (snd r) = Some 2%nat.
Proof.
  intros env w r.
  pose (w1 := snd (get_credits env 0%nat false w)).
  pose (w2 := snd (sheet_call env EvSheetKeys (getSunoLicenseKeys env) w1)).
  pose (w3 := default w2 (rejected env [lic_a] w2)).
  pose (w4 := snd (probe env lic_b w3)).
  pose (w5 := snd (sheet_call env (EvSheetSetActive "b" "cookie-b")
                     (fun n => setSunoActiveLicense env n "b" "cookie-b")
                     (with_activeSunoLicense (Some lic_b) w4))).
  destruct (failed_promotion_leaves_the_module_switched env (invoke env 2)
              (prototype env 2) 0%nat (Concatenate "clip") w
              {| credits_left := Some 5; credits_period := Some "month";
                 credits_monthly_limit := Some 500; credits_monthly_usage := Some 0 |}
              w1 [lic_a] lic_b [lic_c] w2 w3 2%nat
              {| credits_left := Some 50; credits_period := Some "month";
                 credits_monthly_limit := Some 500; credits_monthly_usage := Some 0 |}
              w4 "The sheet is read-only" w5) as (H1 & H2 & H3);
    try (vm_compute; reflexivity).
  unfold r. rewrite H1. auto.
Defined.

(** [newSunoApi] consults the sheet only when it is given no cookie.  Then
    the active license of the sheet becomes [activeSunoLicense] and its key
    the cookie of the new Session; when the sheet has no active license,
    [activeSunoLicense] is left null, no Session is created and the call
    throws. *)
Theorem newSunoApi_without_cookie env w :
  (forall cookie, cookie <> "" ->
      newSunoApi env cookie w
      = (api <- new_SunoApi ;; init env api cookie ;;; ret api) w)
  /\ (forall l w1,
        sheet_call env EvSheetGetActive (getSunoActiveLicense env) w = (Ret (Some l), w1) ->
        newSunoApi env "" w
        = (api <- new_SunoApi ;; init env api (licenseKey l) ;;; ret api)
            (with_activeSunoLicense (Some l) w1))
  /\ (forall w1,
        sheet_call env EvSheetGetActive (getSunoActiveLicense env) w = (Ret None, w1) ->
        newSunoApi env "" w
        = (Throw "TypeError: Cannot read properties of null",
           with_activeSunoLicense None w1)
        /\ instances_created (trace (with_activeSunoLicense None w1))
           = instances_created (trace w)).
Proof.
  repeat split.
  - intros cookie Hne. unfold newSunoApi.
    apply String.eqb_neq in Hne. simpl. rewrite Hne. reflexivity.
  - intros l w1 Hs. unfold newSunoApi. simpl.
    unfold bind at 1. unfold bind at 1. rewrite Hs. reflexivity.
  - unfold newSunoApi. simpl.
    unfold bind at 1. unfold bind at 1. rewrite H. reflexivity.
  - apply sheet_call_returns in H as (_ & T & _ & _). simpl.
    rewrite T, instances_created_app. unfold instances_created. simpl. lia.
Qed.

Lemma newSunoApi_without_cookie_witness :
  fst (newSunoApi env_no_active "" fresh)
  = Throw "TypeError: Cannot read properties of null"
  /\ instances_created (trace (snd (newSunoApi env_no_active "" fresh))) = 0%nat
  /\ newSunoApi env_plenty "cookie-b" fresh
     = (api <- new_SunoApi ;; init env_plenty api "cookie-b" ;;; ret api) fresh.
Proof.
  destruct (newSunoApi_without_cookie env_no_active fresh) as (_ & _ & H).
  destruct (H (snd (sheet_call env_no_active EvSheetGetActive
                      (getSunoActiveLicense env_no_active) fresh)) eq_refl) as [H1 H2].
  destruct (newSunoApi_without_cookie env_plenty fresh) as (H3 & _).
  rewrite H1. split; [reflexivity | split; [exact H2 | apply H3; discriminate]].
Defined.

(** Whatever their outcome, the five operations of the prototype only send
    requests to the upstream and sleep: they do not touch the credential
    sheet, create no Session, leave the module variables
    [activeSunoLicense] and [sunoApi] as they are and change the bindings
    of no instance.  Failover is the guard's alone. *)
Theorem prototype_only_talks_to_the_upstream env fuel this args w :
  let w' := snd (prototype env fuel this args w) in
  appends upstream_only w w'
  /\ store_writes (trace w') = store_writes (trace w)
  /\ instances_created (trace w') = instances_created (trace w)
  /\ activeSunoLicense w' = activeSunoLicense w
  /\ sunoApi w' = sunoApi w
  /\ same_bindings w w'.
Proof.
  intros w'.
  assert (H : appends upstream_only w w')
    by apply (respects_prototype env _ upstream_only_laws).
  repeat split.
  - exact H.
  - now apply appends_upstream_store_writes.
  - now apply appends_upstream_instances.
  - apply (respects_prototype env _ same_license_laws).
  - apply (respects_prototype env _ same_sunoApi_laws).
  - apply (respects_prototype env _ same_bindings_laws).
Qed.

(** ** More on the job poller *)

Lemma get_returns env this songIds w l w' :
  get env this songIds w = (Ret l, w') ->
  exists n h cl, feed env n h songIds = Response cl /\ l = List.map audio_of_feed cl.
Proof.
  unfold get. intros H.
  apply bind_returns in H as ([] & w1 & _ & H).
  apply bind_returns in H as (cl & w2 & Hr & H).
  inversion H; subst; clear H.
  apply request_returns in Hr as [h Hh]. eauto.
Qed.

(** At any poll made before the deadline, a snapshot in which every job is
    streaming or complete, or every job has failed, is returned at once, as
    fetched; at the first poll that is 5 seconds and one fetch after the wait
    was entered. *)
Theorem wait_returns_a_terminal_snapshot_at_once env fuel this songIds :
  (forall startTime lastResponse w l wc,
      now w - startTime < 100000 ->
      get env this (Some songIds) w = (Ret l, wc) -> terminal l = true ->
      wait_loop env (S fuel) this songIds startTime lastResponse w = (Ret l, wc))
  /\ (forall w l wc,
        get env this (Some songIds) (advance 5000 (emit (EvSleep 5000) w)) = (Ret l, wc) ->
        terminal l = true ->
        awaitCompletion env (S fuel) this songIds w = (Ret l, wc)).
Proof.
  assert (H : forall startTime lastResponse w l wc,
             now w - startTime < 100000 ->
             get env this (Some songIds) w = (Ret l, wc) -> terminal l = true ->
             wait_loop env (S fuel) this songIds startTime lastResponse w = (Ret l, wc)).
  { intros startTime lastResponse w l wc Hearly Hget Hterm.
    rewrite wait_loop_S.
    replace (now w - startTime <? 100000) with true by (symmetry; now apply Z.ltb_lt).
    rewrite (bind_ret _ _ _ _ _ Hget). fold (terminal l). now rewrite Hterm. }
  split; [exact H |].
  intros w l wc Hget Hterm. rewrite awaitCompletion_enters.
  apply H; [simpl; lia | exact Hget | exact Hterm].
Qed.

Lemma wait_returns_a_terminal_snapshot_at_once_witness :
  let env := env_second_poll in
  let ids := ["job-1"; "job-1"] in
  let r := generateSongs env 3 0%nat "a song" false None None false None true None
             (loaded env) in
  let first_poll := get env 0%nat (Some ids)
                      (advance 5000 (emit (EvSleep 5000)
                         (snd (request env 0%nat GenerateV2 (Some 10000)
                                 (fun n h => generate_v2 env n h
                                    (generateSongs_payload "a song" false None None false
                                       None None))
                                 (snd (keepAlive env 0%nat false (loaded env))))))) in
  let second_poll := snd (keepAlive env 0%nat true
                            (snd (sleep env 3 (Some 6) (snd first_poll)))) in
  wait_loop env 1 0%nat ids 0 [audio_of_feed queued_clip; audio_of_feed queued_clip]
    second_poll
  = (Ret [audio_of_feed complete_clip; audio_of_feed complete_clip], snd r)
  /\ now (snd r) - now (loaded env) = 9000.
Proof.
  intros env ids r first_poll second_poll.
  destruct (wait_returns_a_terminal_snapshot_at_once env 0 0%nat ids) as [H _].
  split; [apply H |]; vm_compute; reflexivity.
Defined.

(** A batch in which one job has failed and another is complete or
    streaming passes neither test of the loop, although no job will change
    any more; and as long as no fetch passes a test the wait does not
    return before 100 seconds have gone by. *)
Theorem partly_failed_batch_waits_for_the_deadline env fuel this songIds w :
  (forall l a b,
      In a l -> status a = "error" ->
      In b l -> (status b = "complete" \/ status b = "streaming") ->
      terminal l = false)
  /\ ((forall n h ids cl,
          feed env n h ids = Response cl ->
          terminal (List.map audio_of_feed cl) = false) ->
      forall l w',
        awaitCompletion env fuel this songIds w = (Ret l, w') ->
        100000 <= now w' - now w /\ terminal l = false).
Proof.
  split.
  - intros l a b Ha Hsa Hb Hsb. unfold terminal, allCompleted, allError.
    apply orb_false_iff. split.
    + destruct (forallb _ l) eqn:E; [| reflexivity].
      rewrite forallb_forall in E. specialize (E a Ha). now rewrite Hsa in E.
    + destruct (forallb _ l) eqn:E; [| reflexivity].
      rewrite forallb_forall in E. specialize (E b Hb).
      destruct Hsb as [Hsb | Hsb]; now rewrite Hsb in E.
  - intros Hnever l w' H. rewrite awaitCompletion_enters in H.
    apply wait_loop_returns in H
      as [(_ & _ & Hlate) | [(wg & H1 & H2) | (wg & wg' & H1 & H2 & _ & H4)]].
    + simpl in Hlate. lia.
    + apply get_returns in H1 as (n & h & cl & Hf & Hl). subst l.
      rewrite (Hnever _ _ _ _ Hf) in H2. discriminate.
    + split; [exact H4 | exact H2].
Qed.

Lemma partly_failed_batch_waits_for_the_deadline_witness :
  let env := env_partly_failed in
  let r := awaitCompletion env 30 0%nat ["job-1"; "job-2"] (loaded env) in
  fst r = Ret [audio_of_feed complete_clip; audio_of_feed failed_clip]
  /\ 100000 <= now (snd r) - now (loaded env).
Proof.
  intros env r.
  destruct (partly_failed_batch_waits_for_the_deadline env 30 0%nat ["job-1"; "job-2"]
              (loaded env)) as [_ H].
  split; [vm_compute; reflexivity |].
  apply (H (fun _ _ _ _ Hf => ltac:(inversion Hf; reflexivity))
           [audio_of_feed complete_clip; audio_of_feed failed_clip] (snd r)).
  vm_compute. reflexivity.
Defined.

(** ** Submissions *)

Lemma request_responds_in_time {A} env this e t (oracle : nat -> headers -> http A)
    w o cookie a :
  heap w !! this = Some o -> client o = Some cookie ->
  Z.of_N (latency env (tick w) e) <= t ->
  oracle (tick w) (interceptor o cookie) = Response a ->
  request env this e (Some t) oracle w
  = (Ret a, advance (Z.of_N (latency env (tick w) e))
              (emit (EvRequest cookie e) (consult w))).
Proof.
  intros Ho Hc Ht Ha. unfold request, bind, deref. rewrite Ho, Hc. simpl.
  replace (t <? Z.of_N (latency env (tick w) e)) with false
    by (symmetry; apply Z.ltb_ge; lia).
  now rewrite Ha.
Qed.

(** The renewal that opens [generateSongs] and its submission. *)
Lemma generateSongs_posts env this o cookie w payload response :
  heap w !! this = Some o -> truthy (sid o) = true -> client o = Some cookie ->
  (forall n h s v, exists jwt, clerk_tokens env n h s v = Response jwt) ->
  (forall n h, generate_v2 env n h payload = Response response) ->
  (forall n, Z.of_N (latency env n GenerateV2) <= 10000) ->
  exists w1 w2 o1,
    keepAlive env this false w = (Ret tt, w1)
    /\ request env this GenerateV2 (Some 10000)
         (fun n h => generate_v2 env n h payload) w1 = (Ret response, w2)
    /\ heap w2 !! this = Some o1
    /\ truthy (sid o1) = true /\ client o1 = Some cookie
    /\ trace w2 = trace w ++ [EvRequest cookie ClerkTokens; EvRequest cookie GenerateV2].
Proof.
  intros Ho Hs Hc Htok Hpost Hlat.
  destruct (Htok (tick w) (interceptor o cookie) (sid o) (clerkVersion o)) as [jwt Hjwt].
  destruct (keepAlive_succeeds env this false o cookie jwt w Ho Hs Hc Hjwt)
    as (w1 & ms & K & H1 & T1 & _ & _).
  eexists w1, _, _. split; [exact K |]. split.
  - apply (request_responds_in_time env this GenerateV2 10000 _ w1 _ cookie response H1 Hc
             (Hlat _) (Hpost _ _)).
  - split; [exact H1 |]. split; [exact Hs |]. split; [exact Hc |].
    simpl. rewrite T1, <- app_assoc. reflexivity.
Qed.

(** Without waiting, a submission answered by status 200 takes one renewal
    before the request, one request, and one renewal followed by a pause of
    1 to 2 seconds after it: the clips come back in the order of the
    answer, unpolled.  [generate] renews once more before that, since it
    renews and then calls [generateSongs], which renews again. *)
Theorem submission_without_waiting
    env fuel this o cookie prompt isCustom tags title make_instrumental model
    negative_tags clips w :
  heap w !! this = Some o -> truthy (sid o) = true -> client o = Some cookie ->
  (forall n h s v, exists jwt, clerk_tokens env n h s v = Response jwt) ->
  (forall n h p, generate_v2 env n h p = Response (200, clips)) ->
  (forall n, Z.of_N (latency env n GenerateV2) <= 10000) ->
  (exists w' ms,
      generateSongs env fuel this prompt isCustom tags title make_instrumental model
        false negative_tags w
      = (Ret (List.map audio_of_clip clips), w')
      /\ trace w' = trace w ++ [EvRequest cookie ClerkTokens;
                                EvRequest cookie GenerateV2;
                                EvRequest cookie ClerkTokens; EvSleep ms]
      /\ 1000 <= ms <= 2000)
  /\ (exists w' ms,
        generate env fuel this prompt make_instrumental model false w
        = (Ret (VAudios (List.map audio_of_clip clips)), w')
        /\ trace w' = trace w ++ [EvRequest cookie ClerkTokens;
                                  EvRequest cookie ClerkTokens;
                                  EvRequest cookie GenerateV2;
                                  EvRequest cookie ClerkTokens; EvSleep ms]
        /\ 1000 <= ms <= 2000).
Proof.
  intros Ho Hs Hc Htok Hpost Hlat.
  assert (Hsongs : forall o0 w0 custom tg tl ng,
             heap w0 !! this = Some o0 -> truthy (sid o0) = true ->
             client o0 = Some cookie ->
             exists w' ms,
               generateSongs env fuel this prompt custom tg tl make_instrumental model
                 false ng w0
               = (Ret (List.map audio_of_clip clips), w')
               /\ trace w' = trace w0 ++ [EvRequest cookie ClerkTokens;
                                          EvRequest cookie GenerateV2;
                                          EvRequest cookie ClerkTokens; EvSleep ms]
               /\ 1000 <= ms <= 2000).
  { intros o0 w0 custom tg tl ng Ho0 Hs0 Hc0.
    destruct (generateSongs_posts env this o0 cookie w0
                (generateSongs_payload prompt custom tg tl make_instrumental model ng)
                (200, clips) Ho0 Hs0 Hc0 Htok (fun n h => Hpost n h _) Hlat)
      as (w1 & w2 & o1 & K1 & P & Ho1 & Hs1 & Hc1 & T2).
    destruct (Htok (tick w2) (interceptor o1 cookie) (sid o1) (clerkVersion o1))
      as [jwt Hjwt].
    destruct (keepAlive_succeeds env this true o1 cookie jwt w2 Ho1 Hs1 Hc1 Hjwt)
      as (w3 & ms & K3 & _ & T3 & B & _).
    exists w3, ms. split; [| split; [| exact B]].
    - unfold generateSongs. rewrite (bind_ret _ _ _ _ _ K1). cbv zeta.
      rewrite (bind_ret _ _ _ _ _ P). cbn [fst snd Z.eqb Pos.eqb negb].
      now rewrite (bind_ret _ _ _ _ _ K3).
    - rewrite T3, T2, <- app_assoc. reflexivity. }
  split; [now apply (Hsongs o w) |].
  destruct (Htok (tick w) (interceptor o cookie) (sid o) (clerkVersion o)) as [jwt Hjwt].
  destruct (keepAlive_succeeds env this false o cookie jwt w Ho Hs Hc Hjwt)
    as (w1 & ms1 & K1 & Ho1 & T1 & _ & _).
  destruct (Hsongs _ w1 false None None None Ho1 Hs Hc) as (w' & ms & G & T & B).
  exists w', ms. split; [| split; [| exact B]].
  - unfold generate. rewrite (bind_ret _ _ _ _ _ K1), (bind_ret _ _ _ _ _ G). reflexivity.
  - rewrite T, T1, <- app_assoc. reflexivity.
Qed.

Lemma submission_without_waiting_witness :
  exists w' ms,
    generate env_plenty 1 0%nat "a song" false None false (loaded env_plenty)
    = (Ret (VAudios [audio_of_clip queued_clip]), w')
    /\ trace w' = trace (loaded env_plenty)
                  ++ [EvRequest "cookie-main" ClerkTokens;
                      EvRequest "cookie-main" ClerkTokens;
                      EvRequest "cookie-main" GenerateV2;
                      EvRequest "cookie-main" ClerkTokens; EvSleep ms]
    /\ 1000 <= ms <= 2000.
Proof.
  destruct (submission_without_waiting env_plenty 1 0%nat
              {| client := Some "cookie-main"; clerkVersion := Some "5.0";
                 sid := Some "sess_1"; currentToken := Some "jwt";
                 bindings := [Name.generate; Name.concatenate; Name.custom_generate;
                              Name.generateLyrics; Name.extendAudio] |}
              "cookie-main" "a song" false None None false None None [queued_clip]
              (loaded env_plenty)) as [_ H].
  - vm_compute. reflexivity.
  - reflexivity.
  - reflexivity.
  - intros. eexists. reflexivity.
  - intros. reflexivity.
  - intros. simpl. lia.
  - exact H.
Defined.

(** Of the statuses that reach the client only 200 is accepted by
    [generateSongs] and [concatenate]: on any other they throw straight
    after the request, without polling and without the closing renewal.
    [extendAudio] does not look at the status and returns the body. *)
Theorem only_status_200_is_accepted env fuel this o cookie status w :
  heap w !! this = Some o -> truthy (sid o) = true -> client o = Some cookie ->
  (forall n h s v, exists jwt, clerk_tokens env n h s v = Response jwt) ->
  status <> 200 ->
  (forall clips prompt isCustom tags title make_instrumental model wait_audio
          negative_tags,
      (forall n h p, generate_v2 env n h p = Response (status, clips)) ->
      (forall n, Z.of_N (latency env n GenerateV2) <= 10000) ->
      exists w',
        generateSongs env fuel this prompt isCustom tags title make_instrumental model
          wait_audio negative_tags w
        = (Throw "Error response:", w')
        /\ trace w' = trace w ++ [EvRequest cookie ClerkTokens;
                                  EvRequest cookie GenerateV2])
  /\ (forall data clip_id,
        (forall n h c, generate_concat env n h c = Response (status, data)) ->
        (forall n, Z.of_N (latency env n GenerateConcat) <= 10000) ->
        exists w',
          concatenate env this clip_id w = (Throw "Error response:", w')
          /\ trace w' = trace w ++ [EvRequest cookie ClerkTokens;
                                    EvRequest cookie GenerateConcat])
  /\ (forall clips audioId prompt continueAt tags title model,
        (forall n h p, generate_v2 env n h p = Response (status, clips)) ->
        exists w',
          extendAudio env this audioId prompt continueAt tags title model w
          = (Ret (VClips clips), w')
          /\ trace w' = trace w ++ [EvRequest cookie GenerateV2]).
Proof.
  intros Ho Hs Hc Htok Hstatus.
  assert (Hneq : negb (status =? 200) = true)
    by (apply negb_true_iff, Z.eqb_neq; exact Hstatus).
  split; [| split].
  - intros clips prompt isCustom tags title make_instrumental model wait_audio
           negative_tags Hpost Hlat.
    destruct (generateSongs_posts env this o cookie w
                (generateSongs_payload prompt isCustom tags title make_instrumental model
                   negative_tags)
                (status, clips) Ho Hs Hc Htok (fun n h => Hpost n h _) Hlat)
      as (w1 & w2 & o1 & K1 & P & _ & _ & _ & T2).
    exists w2. split; [| exact T2].
    unfold generateSongs. rewrite (bind_ret _ _ _ _ _ K1). cbv zeta.
    rewrite (bind_ret _ _ _ _ _ P). cbn [fst]. now rewrite Hneq.
  - intros data clip_id Hpost Hlat.
    destruct (Htok (tick w) (interceptor o cookie) (sid o) (clerkVersion o)) as [jwt Hjwt].
    destruct (keepAlive_succeeds env this false o cookie jwt w Ho Hs Hc Hjwt)
      as (w1 & ms & K & H1 & T1 & _ & _).
    eexists. split.
    + unfold concatenate. rewrite (bind_ret _ _ _ _ _ K).
      rewrite (bind_ret _ _ _ _ _
                 (request_responds_in_time env this GenerateConcat 10000
                    (fun n h => generate_concat env n h clip_id) w1 _ cookie
                    (status, data) H1 Hc (Hlat _) (Hpost _ _ _))).
      cbn [fst]. now rewrite Hneq.
    + simpl. rewrite T1, <- app_assoc. reflexivity.
  - intros clips audioId prompt continueAt tags title model Hpost.
    eexists. split.
    + unfold extendAudio.
      rewrite (bind_ret _ _ _ _ _
                 (request_responds env this GenerateV2 _ w o cookie (status, clips)
                    Ho Hc (Hpost _ _ _))).
      reflexivity.
    + reflexivity.
Qed.

Lemma only_status_200_is_accepted_witness :
  let env := env_accepted_202 in
  fst (generateSongs env 30 0%nat "a song" false None None false None true None
         (loaded env)) = Throw "Error response:"
  /\ fst (concatenate env 0%nat "clip" (loaded env)) = Throw "Error response:"
  /\ fst (extendAudio env 0%nat "clip" "" "0" "" "" None (loaded env))
     = Ret (VClips [queued_clip]).
Proof.
  intros env.
  destruct (only_status_200_is_accepted env 30 0%nat
              {| client := Some "cookie-main"; clerkVersion := Some "5.0";
                 sid := Some "sess_1"; currentToken := Some "jwt";
                 bindings := [Name.generate; Name.concatenate; Name.custom_generate;
                              Name.generateLyrics; Name.extendAudio] |}
              "cookie-main" 202 (loaded env)) as (H1 & H2 & H3).
  - vm_compute. reflexivity.
  - reflexivity.
  - reflexivity.
  - intros. eexists. reflexivity.
  - discriminate.
  - destruct (H1 [queued_clip] "a song" false None None false None true None)
      as (w1 & E1 & _); [reflexivity | intros; simpl; lia |].
    destruct (H2 "accepted" "clip") as (w2 & E2 & _);
      [reflexivity | intros; simpl; lia |].
    destruct (H3 [queued_clip] "clip" "" "0" "" "" None) as (w3 & E3 & _);
      [reflexivity |].
    rewrite E1, E2, E3. auto.
Defined.

(** ** The feed guard of SunoApi.ts *)

Lemma respects_TS_get env R this songIds :
  laws R ->
  (forall h w, R w (emit EvNew (with_heap h w))) ->
  respects R (TS.get env this songIds).
Proof.
  intros HR Hnew.
  assert (Hcall : forall context,
             respects R
               (keepAlive env context false ;;;
                audios <- request env context Feed (Some 3000)
                            (fun n h => feed env n h songIds) ;;
                ret (List.map audio_of_feed audios))).
  { intros context.
    apply (respects_bind R HR); [apply (respects_keepAlive env R HR) | intros _].
    apply (respects_bind R HR);
      [apply (respects_request env R HR); simpl; lia
      | intros audios; apply (respects_ret R HR)]. }
  unfold TS.get, TS.change_Account.
  apply (respects_bind R HR); [apply (respects_get_credits env R HR) | intros cr].
  apply respects_if; [| apply Hcall].
  apply (respects_bind R HR); [intros w; apply Hnew | intros api].
  apply (respects_bind R HR); [| intros _].
  - unfold TS.init.
    apply (respects_bind R HR);
      [apply (respects_update R HR); reflexivity | intros _].
    apply (respects_bind R HR);
      [apply (respects_getClerkLatestVersion env R HR) | intros _].
    apply (respects_bind R HR); [apply (respects_getAuthToken env R HR) | intros _].
    apply (respects_bind R HR); [apply (respects_keepAlive env R HR) | intros _].
    apply (respects_ret R HR).
  - apply (respects_bind R HR); [apply (respects_get_credits env R HR) | intros _].
    apply Hcall.
Qed.

(** Whatever its outcome, the guarded feed of SunoApi.ts never reads or
    writes the credential sheet and leaves [activeSunoLicense] and
    [sunoApi] alone: its replacement credential is the cookie written in
    [change_Account], and the Session created for it is used for this one
    call only. *)
Theorem change_Account_never_touches_the_sheet env this songIds w :
  let w' := snd (TS.get env this songIds w) in
  appends no_sheet_event w w'
  /\ store_writes (trace w') = store_writes (trace w)
  /\ activeSunoLicense w' = activeSunoLicense w
  /\ sunoApi w' = sunoApi w.
Proof.
  intros w'.
  assert (H : appends no_sheet_event w w').
  { apply (respects_TS_get env (appends no_sheet_event) this songIds).
    - apply appends_laws; intros; exact I.
    - intros h w0. exists [EvNew]. split; [reflexivity | now repeat constructor]. }
  repeat split.
  - exact H.
  - apply appends_store_writes. revert H. apply appends_weaken. now intros [].
  - apply (respects_TS_get env same_license this songIds same_license_laws).
    reflexivity.
  - apply (respects_TS_get env same_sunoApi this songIds same_sunoApi_laws).
    reflexivity.
Qed.

(** ** The feed *)

Lemma parseLyrics_no_blank_line s :
  parseLyrics s = "" \/ forallb not_blank (split_lines (parseLyrics s)) = true.
Proof.
  unfold parseLyrics.
  destruct (List.filter not_blank (split_lines s)) as [| l ls] eqn:E; [now left | right].
  rewrite <- E. rewrite split_join_lines.
  - apply forallb_forall. intros x Hx. now apply List.filter_In in Hx.
  - rewrite E. discriminate.
  - apply filter_single_lines, split_lines_single_lines.
Qed.

(** What [get] returns has one entry for each clip of the upstream's answer,
    in its order and with its id, status and prompt.  The lyric of an entry
    is always present: it is empty, or it has no blank line (a line that is
    empty or white space only), whatever the prompt looked like. *)
Theorem feed_lyrics_have_no_blank_line env this songIds w l w' :
  get env this songIds w = (Ret l, w') ->
  (exists n h cl,
      feed env n h songIds = Response cl
      /\ List.map id l = List.map clip_id cl
      /\ List.map status l = List.map clip_status cl
      /\ List.map prompt l = List.map clip_prompt cl)
  /\ Forall (fun audio =>
               exists s, lyric audio = Some s
                         /\ (s = "" \/ forallb not_blank (split_lines s) = true)) l.
Proof.
  intros H. apply get_returns in H as (n & h & cl & Hf & ->). split.
  - exists n, h, cl. rewrite !List.map_map. auto.
  - apply List.Forall_forall. intros audio Hin.
    apply List.in_map_iff in Hin as (c & <- & _).
    unfold audio_of_feed. cbn [lyric].
    destruct (truthy (clip_prompt c)); eexists; (split; [reflexivity |]).
    + apply parseLyrics_no_blank_line.
    + now left.
Qed.

Lemma feed_lyrics_have_no_blank_line_witness :
  exists l w',
    get env_verses 0%nat None (loaded env_verses) = (Ret l, w')
    /\ List.map lyric l = [Some ""; Some ("verse one" ++ newline ++ "verse two")%string]
    /\ Forall (fun audio =>
                 exists s, lyric audio = Some s
                           /\ (s = "" \/ forallb not_blank (split_lines s) = true)) l.
Proof.
  eexists _, _. split; [vm_compute; reflexivity |]. split; [vm_compute; reflexivity |].
  eapply (feed_lyrics_have_no_blank_line env_verses 0%nat None (loaded env_verses)).
  vm_compute. reflexivity.
Defined.
